(** * s3m: a lock-registry wrapper around sqlite3 connections

  A shallow embedding of [s3m.py] and of the standard-library calls it
  makes ([os.path] on POSIX, [threading.RLock], the [sqlite3] handle),
  followed by the properties of the specification that were checked
  against it. *)

From Stdlib Require Import String Ascii ZArith QArith List Bool Lia.
From stdpp Require Import base gmap strings list.

Local Open Scope list_scope.
Local Open Scope string_scope.

(* ===================================================================== *)
(** * Python strings: the [str] methods used by [posixpath]              *)
(* ===================================================================== *)

Module pystr.

(** [s.startswith(prefix)] *)
Definition startswith (s p : string) : bool := String.prefix p s.

(** [s.endswith("/")] *)
Fixpoint endswith_sep (s : string) : bool :=
  match s with
  | "" => false
  | String c "" => Ascii.eqb c "/"
  | String _ s' => endswith_sep s'
  end.

(** [s[1:]] *)
Definition tail (s : string) : string :=
  match s with
  | "" => ""
  | String _ s' => s'
  end.

(** [s.split("/")]: never empty, [""] splits into [[""]]. *)
Fixpoint split (s : string) : list string :=
  match s with
  | "" => [""]
  | String c s' =>
      if Ascii.eqb c "/" then "" :: split s'
      else match split s' with
           | [] => [String c ""]
           | x :: xs => String c x :: xs
           end
  end.

(** ["/".join(l)] *)
Fixpoint join (l : list string) : string :=
  match l with
  | [] => ""
  | x :: xs =>
      match xs with
      | [] => x
      | _ :: _ => x ++ "/" ++ join xs
      end
  end.

(** [(s[:i], s[i:])] for [i = s.rfind("/") + 1]: the prefix up to and
    including the last separator, and what follows it. *)
Fixpoint cut_after_last_sep (s : string) : string * string :=
  match s with
  | "" => ("", "")
  | String c s' =>
      let '(h, t) := cut_after_last_sep s' in
      if negb (String.eqb h "") then (String c h, t)
      else if Ascii.eqb c "/" then ("/", t)
      else ("", String c t)
  end.

(** [s.rstrip("/")] *)
Fixpoint rstrip_sep (s : string) : string :=
  match s with
  | "" => ""
  | String c s' =>
      let r := rstrip_sep s' in
      if String.eqb r "" && Ascii.eqb c "/" then "" else String c r
  end.

(** [s == "/" * len(s)] *)
Fixpoint all_sep (s : string) : bool :=
  match s with
  | "" => true
  | String c s' => Ascii.eqb c "/" && all_sep s'
  end.

(** ["/" * n] *)
Fixpoint sep_times (n : nat) : string :=
  match n with
  | O => ""
  | S n' => String "/" (sep_times n')
  end.

End pystr.

(* ===================================================================== *)
(** * [os.path] on POSIX ([posixpath.py] of CPython 3.11)                *)
(* ===================================================================== *)

Module posixpath.

(** What the path functions read from the operating system: the current
    directory ([os.getcwd]), whether [os.lstat] reports a symbolic link
    (a path that cannot be stat-ed is not one) and [os.readlink]. *)
Record Env := {
  getcwd : string;
  islink : string -> bool;
  readlink : string -> string
}.

(** [normcase]: "Has no effect under Posix". *)
Definition normcase (s : string) : string := s.

Definition isabs (s : string) : bool := pystr.startswith s "/".

(** One step of [join]'s loop over the extra components. *)
Definition join_step (path b : string) : string :=
  if pystr.startswith b "/" then b
  else if String.eqb path "" || pystr.endswith_sep path then path ++ b
  else path ++ "/" ++ b.

(** [join(a, *p)] *)
Definition join (a : string) (p : list string) : string :=
  fold_left join_step p a.

(** [split(p)]: head and tail around the last separator. *)
Definition split (p : string) : string * string :=
  let '(head, tail) := pystr.cut_after_last_sep p in
  let head :=
    if negb (String.eqb head "") && negb (pystr.all_sep head)
    then pystr.rstrip_sep head else head in
  (head, tail).

Definition is_nil {A} (l : list A) : bool :=
  match l with [] => true | _ :: _ => false end.

(** Body of the [for comp in comps] loop of [normpath]; [new_comps] is a
    stack whose top is the last element. *)
Definition normpath_step (initial_slashes : nat) (new_comps : list string)
    (comp : string) : list string :=
  if String.eqb comp "" || String.eqb comp "." then new_comps
  else if negb (String.eqb comp "..")
          || (Nat.eqb initial_slashes 0 && is_nil new_comps)
          || (negb (is_nil new_comps) && String.eqb (List.last new_comps "") "..")
  then (new_comps ++ [comp])%list
  else if negb (is_nil new_comps) then List.removelast new_comps
  else new_comps.

Definition normpath (path : string) : string :=
  if String.eqb path "" then "."
  else
    let initial_slashes :=
      if pystr.startswith path "/" then
        if pystr.startswith path "//" && negb (pystr.startswith path "///")
        then 2%nat else 1%nat
      else 0%nat in
    let comps := pystr.split path in
    let new_comps := fold_left (normpath_step initial_slashes) comps [] in
    let path := pystr.join new_comps in
    let path :=
      if negb (Nat.eqb initial_slashes 0)
      then pystr.sep_times initial_slashes ++ path else path in
    if String.eqb path "" then "." else path.

Definition abspath (E : Env) (path : string) : string :=
  let path := if negb (isabs path) then join (getcwd E) [path] else path in
  normpath path.

(** Python's recursion limit: [_joinrealpath] recurses once per symbolic
    link it enters, and a chain deeper than this ends in RecursionError. *)
Definition recursion_limit : nat := 1000.

Definition seen_dict : Type := gmap string (option string).

(** The [while rest] loop of [_joinrealpath].  It takes [rest] apart one
    [partition("/")] at a time, which is a loop over [rest.split("/")];
    the part not yet consumed is the join of the remaining components.
    [seen] is the dictionary shared with the nested calls, so it is
    threaded through; [recur] is the nested call of [_joinrealpath]. *)
Fixpoint walk (E : Env)
    (recur : string -> string -> seen_dict -> option (string * bool * seen_dict))
    (comps : list string) (path : string) (seen : seen_dict)
  : option (string * bool * seen_dict) :=
  match comps with
  | [] => Some (path, true, seen)
  | name :: rest =>
      if String.eqb name "" || String.eqb name "." then
        walk E recur rest path seen
      else if String.eqb name ".." then
        let path :=
          if negb (String.eqb path "") then
            let '(path, name) := split path in
            if String.eqb name ".." then join path [".."; ".."] else path
          else ".." in
        walk E recur rest path seen
      else
        let newpath := join path [name] in
        if negb (islink E newpath) then walk E recur rest newpath seen
        else
          match seen !! newpath with
          | Some (Some cached) => walk E recur rest cached seen
          | Some None => Some (join newpath [pystr.join rest], false, seen)
          | None =>
              let seen := <[newpath := None]> seen in
              match recur path (readlink E newpath) seen with
              | None => None
              | Some (path, ok, seen) =>
                  if negb ok then Some (join path [pystr.join rest], false, seen)
                  else walk E recur rest path (<[newpath := Some path]> seen)
              end
          end
  end.

(** [_joinrealpath(path, rest, strict=False, seen)]; [None] is
    RecursionError, raised when [fuel] nested calls are not enough. *)
Fixpoint _joinrealpath (E : Env) (fuel : nat) (path rest : string)
    (seen : seen_dict) {struct fuel} : option (string * bool * seen_dict) :=
  let path := if isabs rest then "/" else path in
  let rest := if isabs rest then pystr.tail rest else rest in
  walk E
    (match fuel with
     | O => fun _ _ _ => None
     | S fuel' => _joinrealpath E fuel'
     end)
    (pystr.split rest) path seen.

(** [realpath(filename)], non-strict. *)
Definition realpath (E : Env) (filename : string) : option string :=
  match _joinrealpath E recursion_limit "" filename ∅ with
  | Some (path, _, _) => Some (abspath E path)
  | None => None
  end.

End posixpath.

(* ===================================================================== *)
(** * Python values, exceptions and outcomes                             *)
(* ===================================================================== *)

Module py.

(** The values a [lock_timeout] argument is given in this development. *)
Inductive value :=
| PyNone
| PyInt (z : Z)
| PyFloat (q : Q).

(** [isinstance(v, (int, float))] *)
Definition is_number (v : value) : bool :=
  match v with
  | PyNone => false
  | PyInt _ | PyFloat _ => true
  end.

(** Exception classes of Python and of [sqlite3] that the modelled calls
    raise, with their direct base class. *)
Inductive stdclass :=
| BaseException
| Exception
| RuntimeError
| RecursionError
| ValueError
| TypeError
| sqlite3_Error
| sqlite3_DatabaseError
| sqlite3_ProgrammingError
| sqlite3_OperationalError.

Definition stdbase (c : stdclass) : option stdclass :=
  match c with
  | BaseException => None
  | Exception => Some BaseException
  | RuntimeError | ValueError | TypeError | sqlite3_Error => Some Exception
  | RecursionError => Some RuntimeError
  | sqlite3_DatabaseError => Some sqlite3_Error
  | sqlite3_ProgrammingError | sqlite3_OperationalError =>
      Some sqlite3_DatabaseError
  end.

(** An exception raised by the runtime or by a library. *)
Record stdexn := { std_class : stdclass; std_msg : string }.

(** How a call ends: it returns, it raises, or it never comes back
    (an unbounded wait on a lock nobody releases). *)
Inductive outcome (E A : Type) :=
| Return (a : A)
| Raise (e : E)
| Block.
Arguments Return {E A} a.
Arguments Raise {E A} e.
Arguments Block {E A}.

End py.

(* ===================================================================== *)
(** * [threading.RLock] (the C implementation, [_thread.RLock])          *)
(* ===================================================================== *)

Module threading.
Import py.

Definition tid := nat.

(** The two fields of [rlockobject]; the lock is free when the count
    is zero. *)
Record RLock := { rlock_owner : tid; rlock_count : nat }.

Definition RLock_new : RLock := {| rlock_owner := 0; rlock_count := 0 |}.

#[global] Instance RLock_inhabited : Inhabited RLock := populate RLock_new.

(** Seconds of a numeric timeout ([lock_acquire_parse_args] rejects
    anything else with TypeError). *)
Definition timeout_seconds (v : value) : option Q :=
  match v with
  | PyNone => None
  | PyInt z => Some (inject_Z z)
  | PyFloat q => Some q
  end.

Definition Qlt_bool (a b : Q) : bool := negb (Qle_bool b a).

(** [lock.acquire(timeout=timeout)] called by thread [t] (blocking is left
    at its default, true).  [wait] says what the other threads do while
    [t] waits for a lock one of them holds: [Some d] when the holder
    lets go of it after [d] seconds, [None] when it never does.
    - the arguments are parsed first: a value that is not a number is a
      TypeError, a negative one other than -1 a ValueError;
    - a holder re-enters at once;
    - a free lock is taken at once;
    - otherwise -1 waits without bound, and a timeout [q >= 0] waits for
      at most [q] seconds and then returns false. *)
Definition RLock_acquire (t : tid) (timeout : value) (wait : option Q)
    (lk : RLock) : RLock * outcome stdexn bool :=
  match timeout_seconds timeout with
  | None =>
      (lk, Raise {| std_class := TypeError;
                    std_msg := "object cannot be interpreted as an integer" |})
  | Some q =>
      let unbounded := Qeq_bool q (-1) in
      if negb unbounded && Qlt_bool q 0 then
        (lk, Raise {| std_class := ValueError;
                      std_msg := "timeout value must be positive" |})
      else if Nat.ltb 0 (rlock_count lk) && Nat.eqb (rlock_owner lk) t then
        ({| rlock_owner := t; rlock_count := S (rlock_count lk) |}, Return true)
      else if Nat.eqb (rlock_count lk) 0 then
        ({| rlock_owner := t; rlock_count := 1 |}, Return true)
      else
        match wait with
        | Some d =>
            if unbounded || Qle_bool d q
            then ({| rlock_owner := t; rlock_count := 1 |}, Return true)
            else (lk, Return false)
        | None =>
            if unbounded then (lk, Block) else (lk, Return false)
        end
  end.

(** [lock.release()] called by thread [t]. *)
Definition RLock_release (t : tid) (lk : RLock) : RLock * outcome stdexn unit :=
  if Nat.eqb (rlock_count lk) 0 || negb (Nat.eqb (rlock_owner lk) t) then
    (lk, Raise {| std_class := RuntimeError;
                  std_msg := "cannot release un-acquired lock" |})
  else if Nat.eqb (Nat.pred (rlock_count lk)) 0 then
    ({| rlock_owner := 0; rlock_count := 0 |}, Return tt)
  else
    ({| rlock_owner := rlock_owner lk; rlock_count := Nat.pred (rlock_count lk) |},
     Return tt).

(** Thread [t] holds the lock. *)
Definition held_by (t : tid) (lk : RLock) : bool :=
  Nat.ltb 0 (rlock_count lk) && Nat.eqb (rlock_owner lk) t.

End threading.

(* ===================================================================== *)
(** * The [sqlite3] handle, as far as the wrapper looks at it            *)
(* ===================================================================== *)

Module sqlite3.
Import py.

(** A connection: closed or not, inside a transaction or not, and the
    contents of the database, which the wrapper never inspects. *)
Record Connection := {
  is_closed : bool;
  txn_open : bool;
  contents : N
}.

Record Cursor := { cursor_closed : bool }.

(** The [in_transaction] attribute: "Cannot operate on a closed
    database." once the connection is closed. *)
Definition in_transaction (h : Connection) : outcome stdexn bool :=
  if is_closed h then
    Raise {| std_class := sqlite3_ProgrammingError;
             std_msg := "Cannot operate on a closed database." |}
  else Return (txn_open h).

Definition Connection_cursor (h : Connection) : Cursor :=
  {| cursor_closed := false |}.

Definition Cursor_close (c : Cursor) : Cursor := {| cursor_closed := true |}.

Definition Connection_close (h : Connection) : Connection :=
  {| is_closed := true; txn_open := txn_open h; contents := contents h |}.

(** Results of the engine calls the wrapper forwards. *)
Inductive result :=
| RNone
| RRow (r : list Z)
| RRows (rs : list (list Z)).

(** An engine call ([cursor.execute], [connection.commit], ...) with its
    arguments applied: what it does to the handle and how it ends.  The
    properties below hold for every such function. *)
Definition call : Type :=
  Connection * Cursor -> (Connection * Cursor) * outcome stdexn result.

(** [sqlite3.connect(path, ...)] with its arguments applied. *)
Definition connect_fn : Type := string -> outcome stdexn Connection.

End sqlite3.

(* ===================================================================== *)
(** * [s3m.py]                                                           *)
(* ===================================================================== *)

Module s3m.
Import py threading.

Definition DEFAULT_FETCHMANY_SIZE : Z := 1000.

(** The reserved name of a private in-memory database. *)
Definition memory : string := ":memory:".

(** [normalize_path(path)]; [None] is a RecursionError out of
    [os.path.realpath]. *)
Definition normalize_path (E : posixpath.Env) (path : string) : option string :=
  if String.eqb path memory then Some path
  else
    match posixpath.realpath E path with
    | Some real => Some (posixpath.normcase (posixpath.normpath real))
    | None => None
    end.

(** The address of a [threading.RLock] in the heap of locks. *)
Definition loc := nat.

(** The lock object a connection refers to: the stateless [FakeLock], or
    the [threading.RLock] at an address, which the connections of one path
    share. *)
Inductive lock_ref :=
| FakeLock
| RLockAt (l : loc).

(** The attributes [Connection.__init__] sets. *)
Record Connection := {
  path : string;
  connection : sqlite3.Connection;
  cursor : sqlite3.Cursor;
  closed : bool;
  lock_timeout : value;
  was_in_transaction : bool;
  lock_transactions : bool;
  lock : lock_ref
}.

(** ** Exceptions *)

(** [class S3MError(BaseException)], [class LockTimeoutError(S3MError)]. *)
Inductive pyclass :=
| Std (c : stdclass)
| S3MError
| LockTimeoutError.

Definition base (c : pyclass) : option pyclass :=
  match c with
  | Std c => Std <$> stdbase c
  | S3MError => Some (Std BaseException)
  | LockTimeoutError => Some S3MError
  end.

(** The classes from [c] up to the root; no chain is longer than six. *)
Fixpoint ancestors (fuel : nat) (c : pyclass) : list pyclass :=
  match fuel with
  | O => []
  | S fuel' =>
      c :: match base c with
           | Some b => ancestors fuel' b
           | None => []
           end
  end.

Definition pyclass_eqb (c d : pyclass) : bool :=
  match c, d with
  | Std a, Std b =>
      match a, b with
      | BaseException, BaseException | Exception, Exception
      | RuntimeError, RuntimeError | RecursionError, RecursionError
      | ValueError, ValueError | TypeError, TypeError
      | sqlite3_Error, sqlite3_Error
      | sqlite3_DatabaseError, sqlite3_DatabaseError
      | sqlite3_ProgrammingError, sqlite3_ProgrammingError
      | sqlite3_OperationalError, sqlite3_OperationalError => true
      | _, _ => false
      end
  | S3MError, S3MError | LockTimeoutError, LockTimeoutError => true
  | _, _ => false
  end.

(** [issubclass(c, d)] *)
Definition issubclass (c d : pyclass) : bool :=
  existsb (pyclass_eqb d) (ancestors 6 c).

(** A message: a literal, or [fmt % arg] left unformatted. *)
Inductive message :=
| Literal (s : string)
| Percent (fmt : string) (arg : value).

(** An exception object: its class, its message and, for
    [LockTimeoutError], its [connection] attribute. *)
Record exn := {
  exn_class : pyclass;
  exn_msg : message;
  exn_connection : option Connection
}.

(** An exception of the runtime or of a library, unchanged. *)
Definition of_std (e : stdexn) : exn :=
  {| exn_class := Std (std_class e);
     exn_msg := Literal (std_msg e);
     exn_connection := None |}.

(** [LockTimeoutError(conn, msg=None)] *)
Definition LockTimeoutError__init__ (conn : option Connection)
    (msg : option message) : exn :=
  let msg :=
    match msg with
    | Some m => m
    | None =>
        match conn with
        | None => Literal "Lock timeout exceeded"
        | Some c =>
            if negb (is_number (lock_timeout c))
            then Literal "Lock timeout exceeded"
            else Percent "Lock timeout exceeded (> %s)" (lock_timeout c)
        end
    end in
  {| exn_class := LockTimeoutError; exn_msg := msg; exn_connection := conn |}.

(** ** The process-wide state *)

(** The delegated operations. *)
Inductive method :=
| execute | executemany | executescript
| commit | rollback
| fetchone | fetchmany | fetchall.

(** What a run leaves behind, oldest first: the accesses to
    [CONNECTION_LOCKS], the calls of [acquire] and [release] on a lock
    ([true] in [EvAcquire] when the lock was granted), and the engine calls
    made for a delegated operation. *)
Inductive event :=
| EvRegistryGet (key : string)
| EvRegistrySet (key : string) (l : loc)
| EvAcquire (lk : lock_ref) (t : tid) (timeout : value) (granted : bool)
| EvRelease (lk : lock_ref) (t : tid)
| EvEngine (m : method).

(** [CONNECTION_LOCKS], the locks it refers to, and the events so far.
    The block under [DICT_LOCK] is one step of this sequential model. *)
Record World := {
  CONNECTION_LOCKS : gmap string loc;
  rlocks : gmap loc RLock;
  trace : list event
}.

Definition World_initial : World :=
  {| CONNECTION_LOCKS := ∅; rlocks := ∅; trace := [] |}.

Definition log (ev : event) (w : World) : World :=
  {| CONNECTION_LOCKS := CONNECTION_LOCKS w;
     rlocks := rlocks w;
     trace := (trace w ++ [ev])%list |}.

Definition set_rlock (l : loc) (lk : RLock) (w : World) : World :=
  {| CONNECTION_LOCKS := CONNECTION_LOCKS w;
     rlocks := <[l := lk]> (rlocks w);
     trace := trace w |}.

(** ** A monad for the methods: [self], the world, and an outcome *)

Record State := { self : Connection; world : World }.

Definition M (A : Type) : Type := State -> State * outcome exn A.

Definition ret {A} (a : A) : M A := fun s => (s, Return a).

Definition raise {A} (e : exn) : M A := fun s => (s, Raise e).

Definition bind {A B} (m : M A) (k : A -> M B) : M B :=
  fun s =>
    match m s with
    | (s', Return a) => k a s'
    | (s', Raise e) => (s', Raise e)
    | (s', Block) => (s', Block)
    end.

#[global] Instance M_ret : MRet M := @ret.
#[global] Instance M_bind : MBind M := fun A B k m => bind m k.

(** [try: m  except cls: h] *)
Definition try_except {A} (m : M A) (cls : pyclass) (h : M A) : M A :=
  fun s =>
    match m s with
    | (s', Raise e) =>
        if issubclass (exn_class e) cls then h s' else (s', Raise e)
    | r => r
    end.

Definition get {A} (f : Connection -> A) : M A :=
  fun s => (s, Return (f (self s))).

Definition modify_self (f : Connection -> Connection) : M unit :=
  fun s => ({| self := f (self s); world := world s |}, Return tt).

Definition set_was_in_transaction (b : bool) (c : Connection) : Connection :=
  {| path := path c; connection := connection c; cursor := cursor c;
     closed := closed c; lock_timeout := lock_timeout c;
     was_in_transaction := b;
     lock_transactions := lock_transactions c; lock := lock c |}.

Definition set_closed (b : bool) (c : Connection) : Connection :=
  {| path := path c; connection := connection c; cursor := cursor c;
     closed := b; lock_timeout := lock_timeout c;
     was_in_transaction := was_in_transaction c;
     lock_transactions := lock_transactions c; lock := lock c |}.

Definition set_engine (hc : sqlite3.Connection * sqlite3.Cursor)
    (c : Connection) : Connection :=
  {| path := path c; connection := fst hc; cursor := snd hc;
     closed := closed c; lock_timeout := lock_timeout c;
     was_in_transaction := was_in_transaction c;
     lock_transactions := lock_transactions c; lock := lock c |}.

Definition set_lock (lk : lock_ref) (c : Connection) : Connection :=
  {| path := path c; connection := connection c; cursor := cursor c;
     closed := closed c; lock_timeout := lock_timeout c;
     was_in_transaction := was_in_transaction c;
     lock_transactions := lock_transactions c; lock := lk |}.

(** ** The two kinds of lock *)

(** [FakeLock.acquire], [FakeLock.release]: "Only pretends to be a lock". *)
Definition FakeLock_acquire (timeout : value) : bool := true.
Definition FakeLock_release : bool := true.

(** [self.lock.acquire(timeout=timeout)] from thread [t]. *)
Definition lock_acquire (t : tid) (wait : option Q) (timeout : value) : M bool :=
  fun s =>
    match lock (self s) with
    | FakeLock =>
        let r := FakeLock_acquire timeout in
        ({| self := self s;
            world := log (EvAcquire FakeLock t timeout r) (world s) |},
         Return r)
    | RLockAt l =>
        let '(lk, r) := RLock_acquire t timeout wait (rlocks (world s) !!! l) in
        let granted := match r with Return true => true | _ => false end in
        ({| self := self s;
            world := log (EvAcquire (RLockAt l) t timeout granted)
                         (set_rlock l lk (world s)) |},
         match r with
         | Return b => Return b
         | Raise e => Raise (of_std e)
         | Block => Block
         end)
    end.

(** [self.lock.release()] from thread [t]. *)
Definition lock_release (t : tid) : M bool :=
  fun s =>
    match lock (self s) with
    | FakeLock =>
        ({| self := self s; world := log (EvRelease FakeLock t) (world s) |},
         Return FakeLock_release)
    | RLockAt l =>
        let '(lk, r) := RLock_release t (rlocks (world s) !!! l) in
        ({| self := self s;
            world := log (EvRelease (RLockAt l) t) (set_rlock l lk (world s)) |},
         match r with
         | Return _ => Return true
         | Raise e => Raise (of_std e)
         | Block => Block
         end)
    end.

(** ** [Connection] *)

(** [Connection.__init__(path, lock_transactions=True, lock_timeout=-1)];
    [connect] is [sqlite3.connect] with the remaining arguments. *)
Definition Connection__init__ (E : posixpath.Env) (connect : sqlite3.connect_fn)
    (path : string) (lock_transactions : bool) (lock_timeout : value)
    (w : World) : World * outcome exn Connection :=
  match normalize_path E path with
  | None =>
      (w, Raise (of_std {| std_class := RecursionError;
                           std_msg := "maximum recursion depth exceeded" |}))
  | Some p =>
      match connect p with
      | Raise e => (w, Raise (of_std e))
      | Block => (w, Block)
      | Return h =>
          let c := {| path := p;
                      connection := h;
                      cursor := sqlite3.Connection_cursor h;
                      closed := false;
                      lock_timeout := lock_timeout;
                      was_in_transaction := false;
                      lock_transactions := lock_transactions;
                      lock := FakeLock |} in
          if String.eqb p memory then (w, Return c)
          else
            let w := log (EvRegistryGet p) w in
            match CONNECTION_LOCKS w !! p with
            | Some l => (w, Return (set_lock (RLockAt l) c))
            | None =>
                let l := fresh (dom (rlocks w)) in
                let w := {| CONNECTION_LOCKS := <[p := l]> (CONNECTION_LOCKS w);
                            rlocks := <[l := RLock_new]> (rlocks w);
                            trace := trace w |} in
                (log (EvRegistrySet p l) w, Return (set_lock (RLockAt l) c))
            end
      end
  end.

Definition default_lock_transactions : bool := true.
Definition default_lock_timeout : value := PyInt (-1).

(** The [in_transaction] property: [self.connection.in_transaction]. *)
Definition in_transaction : M bool :=
  fun s =>
    match sqlite3.in_transaction (connection (self s)) with
    | Return b => (s, Return b)
    | Raise e => (s, Raise (of_std e))
    | Block => (s, Block)
    end.

(** [__enter__], called by thread [t]; [wait] is what the other threads do
    while it waits for the lock. *)
Definition __enter__ (t : tid) (wait : option Q) : M unit :=
  in_tx ← in_transaction ;
  lt ← get lock_transactions ;
  (if negb in_tx || negb lt then
     timeout ← get lock_timeout ;
     granted ← lock_acquire t wait timeout ;
     if negb granted then
       me ← get id ;
       raise (LockTimeoutError__init__ (Some me) None)
     else ret tt
   else ret tt) ;;
  now ← in_transaction ;
  modify_self (set_was_in_transaction now).

(** [__exit__], called by thread [t]. *)
Definition __exit__ (t : tid) : M unit :=
  in_tx ← try_except in_transaction (Std sqlite3_ProgrammingError) (ret false) ;
  lt ← get lock_transactions ;
  if negb lt then
    lock_release t ;; ret tt
  else
    was ← get was_in_transaction ;
    if (was && negb in_tx) || negb in_tx then
      lock_release t ;; ret tt
    else ret tt.

(** [close()]; closing the cursor and the handle is taken to succeed. *)
Definition close : M unit :=
  is_closed ← get closed ;
  if negb is_closed then
    modify_self (fun c =>
      set_engine (connection c, sqlite3.Cursor_close (cursor c)) c) ;;
    modify_self (fun c =>
      set_engine (sqlite3.Connection_close (connection c), cursor c) c) ;;
    modify_self (set_closed true)
  else ret tt.

Definition __del__ : M unit := close.

(** [with self: body]: [__enter__], then the body, then [__exit__] whether
    the body returned or raised.  [__exit__] returns [None], so an
    exception of the body is raised again after it; an exception of
    [__exit__] itself takes its place. *)
Definition with_self {A} (t : tid) (wait : option Q) (body : M A) : M A :=
  fun s =>
    match __enter__ t wait s with
    | (s1, Return _) =>
        match body s1 with
        | (s2, Block) => (s2, Block)
        | (s2, r) =>
            match __exit__ t s2 with
            | (s3, Return _) => (s3, r)
            | (s3, Raise e) => (s3, Raise e)
            | (s3, Block) => (s3, Block)
            end
        end
    | (s1, Raise e) => (s1, Raise e)
    | (s1, Block) => (s1, Block)
    end.

(** The engine call of method [m]: [eng] applied to the handle of [self]. *)
Definition engine_call (m : method) (eng : sqlite3.call) : M sqlite3.result :=
  fun s =>
    let '(hc, r) := eng (connection (self s), cursor (self s)) in
    let s' := {| self := set_engine hc (self s);
                 world := log (EvEngine m) (world s) |} in
    (s', match r with
         | Return v => Return v
         | Raise e => Raise (of_std e)
         | Block => Block
         end).

(** What a delegated operation hands back. *)
Inductive returned :=
| RetSelf (c : Connection)
| RetNone
| RetValue (v : sqlite3.result).

(** The decorator [chain]: run [f], return [self]. *)
Definition chain {A} (f : M A) : M returned :=
  f ;; me ← get id ; ret (RetSelf me).

(** The eight delegated operations; [eng] is the engine call with the
    caller's arguments. *)
Definition call_method (m : method) (eng : sqlite3.call) (t : tid)
    (wait : option Q) : M returned :=
  match m with
  | execute | executemany | executescript =>
      chain (with_self t wait (engine_call m eng))
  | commit | rollback =>
      with_self t wait (engine_call m eng) ;; ret RetNone
  | fetchone | fetchmany | fetchall =>
      v ← with_self t wait (engine_call m eng) ; ret (RetValue v)
  end.

(** [connect(path, factory=Connection, ...)] *)
Definition connect := Connection__init__.

(** ** A process: its world and the connections it has made *)

Record System := { sys_world : World; sessions : list Connection }.

Definition System_initial : System :=
  {| sys_world := World_initial; sessions := [] |}.

(** What the threads of the process do, one call at a time. *)
Inductive action :=
| Connect (connect : sqlite3.connect_fn) (path : string)
          (lock_transactions : bool) (lock_timeout : value)
| Close (i : nat)
| Enter (i : nat) (t : tid) (wait : option Q)
| Exit (i : nat) (t : tid)
| Call (i : nat) (m : method) (eng : sqlite3.call) (t : tid) (wait : option Q).

(** Run a method on session [i]; a session that does not exist is left
    alone. *)
Definition on_session {A} (i : nat) (m : M A) (S : System) : System :=
  match sessions S !! i with
  | None => S
  | Some c =>
      let '(s, _) := m {| self := c; world := sys_world S |} in
      {| sys_world := world s; sessions := <[i := self s]> (sessions S) |}
  end.

Definition step (E : posixpath.Env) (S : System) (a : action) : System :=
  match a with
  | Connect connect p lt timeout =>
      match Connection__init__ E connect p lt timeout (sys_world S) with
      | (w, Return c) =>
          {| sys_world := w; sessions := (sessions S ++ [c])%list |}
      | (w, _) => {| sys_world := w; sessions := sessions S |}
      end
  | Close i => on_session i close S
  | Enter i t wait => on_session i (__enter__ t wait) S
  | Exit i t => on_session i (__exit__ t) S
  | Call i m eng t wait => on_session i (call_method m eng t wait) S
  end.

Definition run (E : posixpath.Env) (acts : list action) : System :=
  fold_left (step E) acts System_initial.

End s3m.

(* ===================================================================== *)
(** * Concrete environments, handles and runs                            *)
(* ===================================================================== *)

Module Examples.
Import py threading s3m.

(** A filesystem without symbolic links, working directory [/home/u]. *)
Definition plain_fs : posixpath.Env :=
  {| posixpath.getcwd := "/home/u";
     posixpath.islink := fun _ => false;
     posixpath.readlink := fun _ => "" |}.



Definition fresh_handle : sqlite3.Connection :=
  {| sqlite3.is_closed := false; sqlite3.txn_open := false;
     sqlite3.contents := 0 |}.

Definition connect_ok : sqlite3.connect_fn := fun _ => Return fresh_handle.

Definition set_txn (b : bool) (h : sqlite3.Connection) : sqlite3.Connection :=
  {| sqlite3.is_closed := sqlite3.is_closed h; sqlite3.txn_open := b;
     sqlite3.contents := sqlite3.contents h |}.

(** [execute("BEGIN TRANSACTION")] *)
Definition sql_begin : sqlite3.call :=
  fun hc => ((set_txn true (fst hc), snd hc), Return sqlite3.RNone).

(** [commit()] *)
Definition sql_commit : sqlite3.call :=
  fun hc => ((set_txn false (fst hc), snd hc), Return sqlite3.RNone).


(** One session opened on a file and closed again. *)
Definition opened_and_closed : System :=
  run plain_fs [Connect connect_ok "/a/b" true (PyInt (-1)); Close 0].

(** Two sessions on one file; thread 1 has begun a transaction through
    the first and so holds the lock.  The second session was opened with
    the given [lock_timeout]. *)
Definition contended (timeout : value) : System :=
  run plain_fs [Connect connect_ok "/a/b" true (PyInt (-1));
                Connect connect_ok "/a//b/" true timeout;
                Call 0 execute sql_begin 1%nat None].

(** The second session of [contended], about to be used. *)
Definition second_session (timeout : value) : State :=
  {| self := default
               {| path := ""; connection := fresh_handle;
                  cursor := sqlite3.Connection_cursor fresh_handle;
                  closed := false; lock_timeout := timeout;
                  was_in_transaction := false; lock_transactions := true;
                  lock := FakeLock |}
               (sessions (contended timeout) !! 1%nat);
     world := sys_world (contended timeout) |}.

(** A session on the private in-memory database. *)
Definition memory_session : State :=
  {| self := {| path := memory; connection := fresh_handle;
                cursor := sqlite3.Connection_cursor fresh_handle;
                closed := false; lock_timeout := PyInt (-1);
                was_in_transaction := false; lock_transactions := true;
                lock := FakeLock |};
     world := World_initial |}.

(** The only session of a process, opened on the file [db]. *)
Definition one_session : State :=
  {| self := default (self memory_session)
               (sessions (run plain_fs [Connect connect_ok "db" true (PyInt (-1))])
                  !! 0%nat);
     world := sys_world (run plain_fs [Connect connect_ok "db" true (PyInt (-1))]) |}.

(** [one_session] after thread 1 has entered it. *)
Definition entered_session : State :=
  fst (__enter__ 1%nat None one_session).

(** The class of the exception a call ended with, if it raised. *)
Definition raised_class {A} (r : outcome exn A) : option pyclass :=
  match r with
  | Raise e => Some (exn_class e)
  | _ => None
  end.

End Examples.

(* ===================================================================== *)
(** * Vocabulary of the properties                                       *)
(* ===================================================================== *)

Import py threading s3m Examples.

(** [s] has no separator in it. *)
Fixpoint noslash (s : string) : bool :=
  match s with
  | "" => true
  | String c s' => negb (Ascii.eqb c "/") && noslash s'
  end.

(** A component that can sit on the stack of a path being built. *)
Definition name_ok (x : string) : Prop := x <> "" /\ noslash x = true.

(** An ordinary file name: not empty, no separator, neither [.] nor [..]. *)
Definition plain (x : string) : Prop :=
  noslash x = true /\ x <> "" /\ x <> "." /\ x <> "..".

(** The path with components [st]: absolute or relative. *)
Definition render (abs : bool) (st : list string) : string :=
  (if abs then "/" else "") ++ pystr.join st.

(** No path is a symbolic link. *)
Definition no_symlinks (E : posixpath.Env) : Prop :=
  forall p, posixpath.islink E p = false.

(** The [initial_slashes] of [normpath] for such a path. *)
Definition slashes (abs : bool) : nat := if abs then 1%nat else 0%nat.

(** [os.getcwd()] is an absolute path of ordinary names. *)
Definition canonical_cwd (E : posixpath.Env) (cw : list string) : Prop :=
  posixpath.getcwd E = render true cw /\ Forall plain cw.

(** The components of the canonical form of [p]: the components of [p],
    after those of the working directory when [p] is relative, with the
    empty ones and [.] dropped and each [..] cancelling what precedes. *)
Definition canon (cw : list string) (p : string) : list string :=
  fold_left (posixpath.normpath_step 1) (pystr.split p)
    (if posixpath.isabs p then [] else cw).

(** A stack of a relative path: no empty component and no [.]. *)
Definition rel_ok (x : string) : Prop := x <> "" /\ x <> ".".



(** The transaction state [__exit__] works with: a closed handle counts as
    "not in a transaction". *)
Definition exit_in_transaction (c : Connection) : bool :=
  negb (sqlite3.is_closed (connection c)) && sqlite3.txn_open (connection c).

Definition is_registry_event (ev : event) : bool :=
  match ev with
  | EvRegistryGet _ | EvRegistrySet _ _ => true
  | _ => false
  end.

(** The accesses to [CONNECTION_LOCKS] recorded in a trace. *)
Definition registry_events (tr : list event) : list event :=
  List.filter is_registry_event tr.

(** An operation leaves the registry alone: the dictionary is the same, no
    access to it was added to the trace, and the session keeps its lock. *)
Definition registry_untouched {A} (s : State) (res : State * outcome exn A) : Prop :=
  CONNECTION_LOCKS (world (fst res)) = CONNECTION_LOCKS (world s)
  /\ registry_events (trace (world (fst res))) = registry_events (trace (world s))
  /\ lock (self (fst res)) = lock (self s).

(** An operation did not end in a [LockTimeoutError]. *)
Definition no_lock_timeout {A} (res : State * outcome exn A) : Prop :=
  match snd res with
  | Raise e => exn_class e <> LockTimeoutError
  | _ => True
  end.


(** Every session on a file refers to the lock registered for its path. *)
Definition registry_inv (S : System) : Prop :=
  forall i c,
    sessions S !! i = Some c ->
    path c <> memory ->
    exists l, CONNECTION_LOCKS (sys_world S) !! path c = Some l
              /\ lock c = RLockAt l.

(** ** Vocabulary of the lock accounting *)

(** A timeout [RLock.acquire] accepts: a number that is -1 or not negative. *)
Definition timeout_ok (v : value) : bool :=
  match timeout_seconds v with
  | Some q => Qeq_bool q (-1) || negb (Qlt_bool q 0)
  | None => false
  end.

(** The lock is free, or thread [t] holds it: [t] can take it at once. *)
Definition available (t : tid) (lk : RLock) : bool :=
  Nat.eqb (rlock_count lk) 0 || held_by t lk.

(** Whether [__enter__] goes for the lock of session [c], and whether
    [__exit__] lets go of it. *)
Definition acquires (c : Connection) : bool :=
  negb (sqlite3.txn_open (connection c)) || negb (lock_transactions c).

Definition releases (c : Connection) : bool :=
  negb (lock_transactions c) || negb (exit_in_transaction c).

(** What method [m] of session [c] ends with when its engine call ended
    with [r]. *)
Definition delegated (m : method) (c : Connection)
    (r : outcome stdexn sqlite3.result) : outcome exn returned :=
  match r with
  | Return v =>
      Return match m with
             | execute | executemany | executescript => RetSelf c
             | commit | rollback => RetNone
             | fetchone | fetchmany | fetchall => RetValue v
             end
  | Raise e => Raise (of_std e)
  | Block => Block
  end.

(** The session as a delegated call leaves it: [was_in_transaction] as
    [__enter__] found the handle, the handle as the engine left it. *)
Definition after_call (hc : sqlite3.Connection * sqlite3.Cursor)
    (c : Connection) : Connection :=
  set_engine hc (set_was_in_transaction (sqlite3.txn_open (connection c)) c).

(** How many times the lock at [l] is held. *)
Definition lock_level (l : loc) (s : State) : nat :=
  rlock_count (rlocks (world s) !!! l).


(** The error of [RLock.release] called by a thread that does not hold
    the lock. *)
Definition not_acquired : exn :=
  of_std {| std_class := RuntimeError;
            std_msg := "cannot release un-acquired lock" |}.




(** An operation that leaves every lock there is in place. *)
Definition keeps_locks {A} (m : M A) : Prop :=
  forall s l,
    is_Some (rlocks (world s) !! l) ->
    is_Some (rlocks (world (fst (m s))) !! l).

(** The registry of a process is well formed: a key is never the marker
    [:memory:], it is the path of a session, its lock exists and is the
    lock of no other key; and a session on [:memory:] has a [FakeLock]. *)
Definition registry_wf (S : System) : Prop :=
  (forall k l,
      CONNECTION_LOCKS (sys_world S) !! k = Some l ->
      k <> memory
      /\ is_Some (rlocks (sys_world S) !! l)
      /\ (exists i c, sessions S !! i = Some c /\ path c = k)
      /\ (forall k', CONNECTION_LOCKS (sys_world S) !! k' = Some l -> k' = k))
  /\ (forall i c,
         sessions S !! i = Some c -> path c = memory -> lock c = FakeLock).

(** ** Further sessions and engine calls for the examples *)

(** A statement that leaves the handle as it is. *)
Definition sql_select : sqlite3.call :=
  fun hc => (hc, Return (sqlite3.RRows [[1%Z]; [2%Z]])).

(** [one_session] after thread 1 has begun a transaction through it. *)
Definition session_in_transaction : State :=
  fst (call_method execute sql_begin 1%nat None one_session).


(** Two sessions on one file and one on another. *)
Definition three_sessions : list action :=
  [Connect connect_ok "/a/b" true (PyInt (-1));
   Connect connect_ok "/a/c" true (PyInt (-1));
   Connect connect_ok "/a/./b" true (PyInt 5)].

(** Session [i] of the run [acts]. *)
Definition session_at (acts : list action) (i : nat) : Connection :=
  default (self memory_session) (sessions (run plain_fs acts) !! i).

(* ===================================================================== *)
(** * Properties                                                         *)
(* ===================================================================== *)

(** ** Canonical paths *)

Arguments pystr.startswith : simpl never.

Section StringFacts.

Lemma append_cons (c : ascii) (a b : string) : String c a ++ b = String c (a ++ b).
Proof. reflexivity. Qed.

Lemma append_nil_l (b : string) : "" ++ b = b.
Proof. reflexivity. Qed.


Lemma append_assoc (a b c : string) : (a ++ b) ++ c = a ++ (b ++ c).
Proof.
  induction a as [|x a IH]; [reflexivity|]. rewrite !append_cons, IH. reflexivity.
Qed.

Lemma split_nonnil (s : string) : pystr.split s <> [].
Proof.
  induction s as [|c s IH]; simpl; [discriminate|].
  destruct (Ascii.eqb c "/"); [discriminate|].
  destruct (pystr.split s); discriminate.
Qed.

Lemma split_noslash (s : string) : Forall (fun x => noslash x = true) (pystr.split s).
Proof.
  induction s as [|c s IH]; simpl.
  - repeat constructor.
  - destruct (Ascii.eqb c "/") eqn:Hc.
    + constructor; [reflexivity|exact IH].
    + destruct (pystr.split s) as [|x xs].
      * repeat constructor. simpl. rewrite Hc. reflexivity.
      * inversion IH; subst. constructor; [|assumption].
        simpl. rewrite Hc. simpl. assumption.
Qed.

Lemma split_noslash_id (x : string) : noslash x = true -> pystr.split x = [x].
Proof.
  induction x as [|c x IH]; simpl; [reflexivity|].
  intros H. apply andb_true_iff in H as [Hc Hx].
  apply negb_true_iff in Hc. rewrite Hc, (IH Hx). reflexivity.
Qed.

Lemma split_app_sep (a b : string) :
  pystr.split (a ++ "/" ++ b) = (pystr.split a ++ pystr.split b)%list.
Proof.
  induction a as [|c a IH]; simpl; [reflexivity|].
  destruct (Ascii.eqb c "/"); simpl.
  - f_equal. exact IH.
  - rewrite IH. pose proof (split_nonnil a) as Hn.
    destruct (pystr.split a) as [|x xs]; [contradiction|reflexivity].
Qed.

Lemma join_cons (x : string) (xs : list string) :
  xs <> [] -> pystr.join (x :: xs) = x ++ "/" ++ pystr.join xs.
Proof. destruct xs; [contradiction|reflexivity]. Qed.

Lemma join_snoc (cs : list string) (x : string) :
  cs <> [] -> pystr.join (cs ++ [x]) = pystr.join cs ++ "/" ++ x.
Proof.
  induction cs as [|c cs IH]; [contradiction|]. intros _.
  destruct cs as [|d cs].
  - reflexivity.
  - change ((c :: d :: cs) ++ [x])%list with (c :: ((d :: cs) ++ [x]))%list.
    rewrite (join_cons c ((d :: cs) ++ [x])) by discriminate.
    rewrite IH by discriminate.
    rewrite (join_cons c (d :: cs)) by discriminate.
    rewrite !append_assoc. reflexivity.
Qed.

Lemma split_join (cs : list string) :
  cs <> [] -> Forall (fun x => noslash x = true) cs ->
  pystr.split (pystr.join cs) = cs.
Proof.
  induction cs as [|c cs IH]; [contradiction|]. intros _ H.
  inversion H as [|? ? Hc Hcs]; subst.
  destruct cs as [|d cs].
  - simpl. apply split_noslash_id. assumption.
  - rewrite join_cons by discriminate. rewrite split_app_sep.
    rewrite split_noslash_id by assumption.
    rewrite IH by (discriminate || assumption). reflexivity.
Qed.

Lemma endswith_sep_app (a b : string) :
  b <> "" -> pystr.endswith_sep (a ++ b) = pystr.endswith_sep b.
Proof.
  intros Hb. induction a as [|c a IH]; [reflexivity|].
  simpl. destruct (a ++ b) eqn:Hab.
  - destruct a; simpl in Hab; [contradiction|discriminate].
  - exact IH.
Qed.

Lemma endswith_sep_noslash (x : string) :
  noslash x = true -> pystr.endswith_sep x = false.
Proof.
  induction x as [|c x IH]; [reflexivity|]. simpl.
  intros H. apply andb_true_iff in H as [Hc Hx].
  apply negb_true_iff in Hc.
  destruct x; [assumption|]. apply IH. assumption.
Qed.

Lemma startswith_nil (s : string) : pystr.startswith s "" = true.
Proof. destruct s; reflexivity. Qed.

Lemma startswith_cons (c d : ascii) (s p : string) :
  pystr.startswith (String c s) (String d p)
  = Ascii.eqb c d && pystr.startswith s p.
Proof.
  unfold pystr.startswith. cbn [String.prefix].
  destruct (ascii_dec d c) as [->|Hne].
  - rewrite Ascii.eqb_refl. reflexivity.
  - destruct (Ascii.eqb_spec c d) as [->|_]; [contradiction|reflexivity].
Qed.

Lemma startswith_sep_noslash (x : string) :
  noslash x = true -> pystr.startswith x "/" = false.
Proof.
  destruct x as [|c x]; [reflexivity|]. simpl.
  intros H. apply andb_true_iff in H as [Hc _].
  apply negb_true_iff in Hc.
  rewrite startswith_cons, Hc. reflexivity.
Qed.

Lemma cut_noslash (x : string) :
  noslash x = true -> pystr.cut_after_last_sep x = ("", x).
Proof.
  induction x as [|c x IH]; [reflexivity|]. simpl.
  intros H. apply andb_true_iff in H as [Hc Hx].
  apply negb_true_iff in Hc. rewrite (IH Hx). simpl. rewrite Hc. reflexivity.
Qed.

Lemma cut_app_sep (p x : string) :
  noslash x = true ->
  pystr.cut_after_last_sep (p ++ "/" ++ x) = (p ++ "/", x).
Proof.
  intros Hx. induction p as [|c p IH].
  - rewrite !append_nil_l, append_cons, append_nil_l. simpl.
    rewrite (cut_noslash x Hx). reflexivity.
  - rewrite (append_cons c p), (append_cons c p). simpl. rewrite IH.
    destruct (p ++ "/") eqn:Hp; [destruct p; discriminate|]. reflexivity.
Qed.

Lemma rstrip_app_sep (s : string) :
  pystr.rstrip_sep (s ++ "/") = pystr.rstrip_sep s.
Proof.
  induction s as [|c s IH]; [reflexivity|].
  rewrite append_cons. simpl. rewrite IH. reflexivity.
Qed.

Lemma rstrip_id (s : string) :
  pystr.endswith_sep s = false -> pystr.rstrip_sep s = s.
Proof.
  induction s as [|c s IH]; [reflexivity|]. simpl.
  destruct s as [|d s].
  - intros ->. reflexivity.
  - intros H. rewrite (IH H). reflexivity.
Qed.

Lemma all_sep_app (a b : string) :
  pystr.all_sep (a ++ b) = pystr.all_sep a && pystr.all_sep b.
Proof.
  induction a as [|c a IH]; [reflexivity|].
  rewrite append_cons. simpl. rewrite IH. apply andb_assoc.
Qed.

Lemma all_sep_name (x : string) : name_ok x -> pystr.all_sep x = false.
Proof.
  intros [Hne Hx]. destruct x as [|c x]; [contradiction|]. simpl in *.
  apply andb_true_iff in Hx as [Hc _]. apply negb_true_iff in Hc.
  rewrite Hc. reflexivity.
Qed.

End StringFacts.

Section Render.

Lemma name_ok_noslash x : name_ok x -> noslash x = true.
Proof. intros [_ H]. exact H. Qed.

Lemma plain_name_ok x : plain x -> name_ok x.
Proof. intros (H1 & H2 & _). split; assumption. Qed.

Lemma join_nonempty (st : list string) :
  st <> [] -> Forall name_ok st -> pystr.join st <> "".
Proof.
  destruct st as [|x st]; [contradiction|]. intros _ H.
  inversion H as [|? ? [Hx _] _]; subst.
  destruct st.
  - simpl. assumption.
  - rewrite join_cons by discriminate.
    destruct x; [contradiction|discriminate].
Qed.

Lemma render_snoc abs st x :
  st <> [] -> render abs (st ++ [x]) = render abs st ++ "/" ++ x.
Proof.
  intros H. unfold render. rewrite join_snoc by assumption.
  rewrite append_assoc. reflexivity.
Qed.

Lemma render_nonempty abs st :
  Forall name_ok st -> (abs = true \/ st <> []) -> render abs st <> "".
Proof.
  intros Hst H. unfold render. destruct abs; [discriminate|].
  destruct H as [H|H]; [discriminate|].
  rewrite append_nil_l. apply join_nonempty; assumption.
Qed.

Lemma join_endswith (st : list string) :
  st <> [] -> Forall name_ok st -> pystr.endswith_sep (pystr.join st) = false.
Proof.
  intros Hne Hst.
  destruct (exists_last Hne) as (st' & x & ->).
  apply Forall_app in Hst as [_ Hx].
  inversion Hx as [|? ? [Hx1 Hx2] _]; subst.
  destruct st' as [|y st'].
  - simpl. apply endswith_sep_noslash. assumption.
  - rewrite join_snoc by discriminate.
    rewrite <- append_assoc. rewrite endswith_sep_app by assumption.
    apply endswith_sep_noslash. assumption.
Qed.

Lemma render_endswith abs st :
  st <> [] -> Forall name_ok st -> pystr.endswith_sep (render abs st) = false.
Proof.
  intros Hne Hst. unfold render.
  rewrite endswith_sep_app by (apply join_nonempty; assumption).
  apply join_endswith; assumption.
Qed.

Lemma join_all_sep (st : list string) :
  st <> [] -> Forall name_ok st -> pystr.all_sep (pystr.join st) = false.
Proof.
  destruct st as [|x st]; [contradiction|]. intros _ H.
  inversion H as [|? ? Hx _]; subst.
  destruct st.
  - simpl. apply all_sep_name. assumption.
  - rewrite join_cons by discriminate. rewrite all_sep_app.
    rewrite all_sep_name by assumption. reflexivity.
Qed.

Lemma render_all_sep abs st :
  st <> [] -> Forall name_ok st -> pystr.all_sep (render abs st) = false.
Proof.
  intros Hne Hst. unfold render. rewrite all_sep_app.
  rewrite (join_all_sep st) by assumption. apply andb_false_r.
Qed.

Lemma join_startswith (st : list string) :
  Forall name_ok st -> pystr.startswith (pystr.join st) "/" = false.
Proof.
  destruct st as [|x st]; [reflexivity|]. intros H.
  inversion H as [|? ? [Hx1 Hx2] _]; subst.
  destruct x as [|c x]; [contradiction|].
  assert (Hc : Ascii.eqb c "/" = false).
  { simpl in Hx2. apply andb_true_iff in Hx2 as [Hc _].
    apply negb_true_iff in Hc. exact Hc. }
  destruct st.
  - simpl. rewrite startswith_cons, Hc. reflexivity.
  - rewrite join_cons by discriminate. rewrite append_cons.
    rewrite startswith_cons, Hc. reflexivity.
Qed.

(** [join(path, name)] pushes a name. *)
Lemma join_step_render abs st x :
  Forall name_ok st -> name_ok x ->
  posixpath.join_step (render abs st) x = render abs (st ++ [x]).
Proof.
  intros Hst Hx. unfold posixpath.join_step.
  rewrite (startswith_sep_noslash x) by (apply name_ok_noslash; assumption).
  destruct st as [|y st0] eqn:Hst0.
  - destruct abs; reflexivity.
  - rewrite <- Hst0 in *. assert (Hne : st <> []) by (subst; discriminate).
    rewrite render_endswith by assumption.
    destruct (String.eqb_spec (render abs st) "") as [He|_].
    + exfalso. eapply render_nonempty; eauto.
    + simpl. rewrite render_snoc by assumption. reflexivity.
Qed.

(** [split(path)] pops the last name. *)
Lemma split_render abs st x :
  Forall name_ok st -> name_ok x ->
  posixpath.split (render abs (st ++ [x])) = (render abs st, x).
Proof.
  intros Hst [Hx1 Hx2]. unfold posixpath.split.
  destruct st as [|y st0] eqn:Hst0.
  - destruct abs.
    + change (render true ([] ++ [x])) with ("" ++ "/" ++ x).
      rewrite cut_app_sep by assumption. reflexivity.
    + change (render false ([] ++ [x])) with x.
      rewrite cut_noslash by assumption. reflexivity.
  - rewrite <- Hst0 in *. assert (Hne : st <> []) by (subst; discriminate).
    rewrite render_snoc by assumption.
    rewrite cut_app_sep by assumption.
    rewrite all_sep_app, (render_all_sep abs st) by assumption. simpl.
    destruct (String.eqb_spec (render abs st ++ "/") "") as [He|_].
    { destruct (render abs st); discriminate. }
    simpl. rewrite rstrip_app_sep.
    rewrite rstrip_id by (apply render_endswith; assumption). reflexivity.
Qed.

End Render.

Section Steps.
Import posixpath.

Lemma snoc_or_nil {A} (l : list A) :
  l = [] \/ exists l' x, l = (l' ++ [x])%list.
Proof. induction l using rev_ind; [left; reflexivity|right; eauto]. Qed.

Lemma is_nil_false {A} (l : list A) : l <> [] -> is_nil l = false.
Proof. destruct l; [contradiction|reflexivity]. Qed.

Lemma step_push n st c :
  c <> "" -> c <> "." -> c <> ".." -> normpath_step n st c = (st ++ [c])%list.
Proof.
  intros H1 H2 H3. unfold normpath_step.
  apply String.eqb_neq in H1, H2, H3. rewrite H1, H2, H3. reflexivity.
Qed.

Lemma step_pop n st x :
  x <> ".." -> normpath_step n (st ++ [x]) ".." = st.
Proof.
  intros Hx. unfold normpath_step. simpl.
  rewrite is_nil_false by (destruct st; discriminate).
  rewrite last_last. apply String.eqb_neq in Hx. rewrite Hx. simpl.
  rewrite andb_false_r. simpl. apply removelast_last.
Qed.

Lemma step_up_more n st :
  normpath_step n (st ++ [".."]) ".." = (st ++ [".."; ".."])%list.
Proof.
  unfold normpath_step. simpl.
  rewrite is_nil_false by (destruct st; discriminate).
  rewrite last_last. simpl. rewrite orb_true_r.
  rewrite <- app_assoc. reflexivity.
Qed.

(** The stack of an absolute path holds ordinary names only. *)
Lemma step_abs_plain st c :
  Forall plain st -> noslash c = true -> Forall plain (normpath_step 1 st c).
Proof.
  intros Hst Hc.
  destruct (String.eqb_spec c "") as [->|H1]; [assumption|].
  destruct (String.eqb_spec c ".") as [->|H2]; [assumption|].
  destruct (String.eqb_spec c "..") as [->|H3].
  - destruct (snoc_or_nil st) as [->|(st' & x & ->)].
    + exact Hst.
    + apply Forall_app in Hst as [Hst' Hx].
      inversion Hx as [|? ? (_ & _ & _ & Hx3) _]; subst.
      rewrite step_pop by assumption. exact Hst'.
  - rewrite step_push by assumption.
    apply Forall_app. split; [assumption|].
    repeat constructor; assumption.
Qed.
End Steps.

Section NoLinks.
Import posixpath.

Lemma dotdot_ok : name_ok "..".
Proof. split; [discriminate|reflexivity]. Qed.

Lemma step_name_ok n st c :
  Forall name_ok st -> noslash c = true -> Forall name_ok (normpath_step n st c).
Proof.
  intros Hst Hc.
  destruct (String.eqb_spec c "") as [->|H1]; [assumption|].
  destruct (String.eqb_spec c ".") as [->|H2]; [assumption|].
  destruct (String.eqb_spec c "..") as [->|H3].
  - destruct (snoc_or_nil st) as [->|(st' & x & ->)].
    + destruct n; simpl; repeat constructor; try discriminate.
    + destruct (String.eqb_spec x "..") as [->|Hx].
      * rewrite step_up_more. apply Forall_app in Hst as [Hst' _].
        apply Forall_app. split; [assumption|].
        repeat constructor; discriminate.
      * rewrite step_pop by assumption.
        apply Forall_app in Hst as [Hst' _]. assumption.
  - rewrite step_push by assumption.
    apply Forall_app. split; [assumption|].
    repeat constructor; assumption.
Qed.

End NoLinks.

Section Canonical.
Import posixpath.

Lemma fold_abs_plain cs st :
  Forall plain st -> Forall (fun x => noslash x = true) cs ->
  Forall plain (fold_left (normpath_step 1) cs st).
Proof.
  intros Hst Hcs. revert st Hst.
  induction Hcs as [|c cs Hc Hcs IH]; intros st Hst; [assumption|].
  simpl. apply IH. apply step_abs_plain; assumption.
Qed.

Lemma fold_push_plain n cs st :
  Forall plain cs -> fold_left (normpath_step n) cs st = (st ++ cs)%list.
Proof.
  intros Hcs. revert st.
  induction Hcs as [|c cs (_ & H1 & H2 & H3) Hcs IH]; intros st.
  - rewrite app_nil_r. reflexivity.
  - simpl. rewrite step_push by assumption. rewrite IH.
    rewrite <- app_assoc. reflexivity.
Qed.

Lemma canon_plain cw p : Forall plain cw -> Forall plain (canon cw p).
Proof.
  intros Hcw. unfold canon. apply fold_abs_plain.
  - destruct (isabs p); [constructor|assumption].
  - apply split_noslash.
Qed.

Lemma plain_all_name_ok st : Forall plain st -> Forall name_ok st.
Proof.
  intros H. eapply Forall_impl; [exact H|]. intros x. apply plain_name_ok.
Qed.

(** [normpath] on a path with exactly one leading separator. *)
Lemma normpath_abs P :
  pystr.startswith P "/" = true -> pystr.startswith P "//" = false ->
  normpath P = render true (fold_left (normpath_step 1) (pystr.split P) []).
Proof.
  intros H1 H2. unfold normpath. rewrite H1, H2.
  destruct P as [|c P]; [discriminate|].
  reflexivity.
Qed.

Lemma render_abs_startswith fc :
  Forall name_ok fc ->
  pystr.startswith (render true fc) "/" = true
  /\ pystr.startswith (render true fc) "//" = false.
Proof.
  intros H. unfold render. rewrite !append_cons, append_nil_l.
  rewrite !startswith_cons, startswith_nil.
  rewrite join_startswith by assumption. split; reflexivity.
Qed.

Lemma split_render_abs fc :
  Forall name_ok fc ->
  pystr.split (render true fc)
  = "" :: (if is_nil fc then [""] else fc).
Proof.
  intros H. unfold render.
  change ("/" ++ pystr.join fc) with ("" ++ "/" ++ pystr.join fc).
  rewrite split_app_sep. simpl. f_equal.
  destruct fc as [|x fc]; [reflexivity|].
  apply split_join; [discriminate|].
  eapply Forall_impl; [exact H|]. intros y. apply name_ok_noslash.
Qed.

Lemma fold_split_render fc st :
  Forall plain fc ->
  fold_left (normpath_step 1) (pystr.split (render true fc)) st
  = (st ++ fc)%list.
Proof.
  intros H. rewrite split_render_abs by (apply plain_all_name_ok; assumption).
  simpl. destruct fc as [|x fc].
  - simpl. rewrite app_nil_r. reflexivity.
  - simpl is_nil. cbv iota. apply fold_push_plain. assumption.
Qed.

Lemma normpath_render_plain fc :
  Forall plain fc -> normpath (render true fc) = render true fc.
Proof.
  intros H.
  destruct (render_abs_startswith fc (plain_all_name_ok fc H)) as [H1 H2].
  rewrite normpath_abs by assumption.
  rewrite fold_split_render by assumption. reflexivity.
Qed.

Lemma step_rel_ok n st c :
  Forall rel_ok st -> Forall rel_ok (normpath_step n st c).
Proof.
  intros Hst.
  destruct (String.eqb_spec c "") as [->|H1]; [assumption|].
  destruct (String.eqb_spec c ".") as [->|H2]; [assumption|].
  destruct (String.eqb_spec c "..") as [->|H3].
  - destruct (snoc_or_nil st) as [->|(st' & x & ->)].
    + destruct n; simpl; repeat constructor; discriminate.
    + destruct (String.eqb_spec x "..") as [->|Hx].
      * rewrite step_up_more. apply Forall_app in Hst as [Hst' _].
        apply Forall_app. split; [assumption|].
        repeat constructor; discriminate.
      * rewrite step_pop by assumption.
        apply Forall_app in Hst as [Hst' _]. assumption.
  - rewrite step_push by assumption.
    apply Forall_app. split; [assumption|].
    repeat constructor; assumption.
Qed.

(** Replaying a relative stack on top of an absolute one, one step on. *)
Lemma replay_step st rs c :
  Forall rel_ok rs ->
  fold_left (normpath_step 1) (normpath_step 0 rs c) st
  = normpath_step 1 (fold_left (normpath_step 1) rs st) c.
Proof.
  intros Hrs.
  destruct (String.eqb_spec c "") as [->|H1]; [reflexivity|].
  destruct (String.eqb_spec c ".") as [->|H2]; [reflexivity|].
  destruct (String.eqb_spec c "..") as [->|H3].
  - destruct (snoc_or_nil rs) as [->|(rs' & x & ->)].
    + reflexivity.
    + destruct (String.eqb_spec x "..") as [->|Hx].
      * rewrite step_up_more.
        change [".."; ".."] with ([".."] ++ [".."])%list.
        rewrite app_assoc, fold_left_app. reflexivity.
      * rewrite step_pop by assumption. rewrite fold_left_app. simpl.
        apply Forall_app in Hrs as [_ Hx'].
        inversion Hx' as [|? ? [Hx1 Hx2] _]; subst.
        rewrite (step_push 1 _ x) by assumption.
        rewrite step_pop by assumption. reflexivity.
  - rewrite step_push by assumption. rewrite fold_left_app. reflexivity.
Qed.

Lemma replay st cs rs :
  Forall rel_ok rs ->
  fold_left (normpath_step 1) (fold_left (normpath_step 0) cs rs) st
  = fold_left (normpath_step 1) cs (fold_left (normpath_step 1) rs st).
Proof.
  revert rs. induction cs as [|c cs IH]; intros rs Hrs; [reflexivity|].
  simpl. rewrite IH by (apply step_rel_ok; assumption).
  rewrite replay_step by assumption. reflexivity.
Qed.

End Canonical.

Section Realpath.
Import posixpath.

Lemma joinrealpath_unfold E fuel path rest seen :
  _joinrealpath E fuel path rest seen
  = walk E
      (match fuel with
       | O => fun _ _ _ => None
       | S fuel' => _joinrealpath E fuel'
       end)
      (pystr.split (if isabs rest then pystr.tail rest else rest))
      (if isabs rest then "/" else path) seen.
Proof. destruct fuel; reflexivity. Qed.

Lemma isabs_cons p :
  isabs p = true -> exists p', p = String "/" p'.
Proof.
  unfold isabs. destruct p as [|c p]; [discriminate|].
  rewrite startswith_cons, startswith_nil, andb_true_r.
  intros H. apply Ascii.eqb_eq in H. subst. eauto.
Qed.

Lemma startswith_app a b :
  a <> "" -> pystr.startswith (a ++ b) "/" = pystr.startswith a "/".
Proof.
  destruct a as [|c a]; [contradiction|]. intros _.
  rewrite append_cons, !startswith_cons, !startswith_nil. reflexivity.
Qed.

(** The working directory joined with a relative path, as [abspath]
    does before it normalises. *)
Lemma join_cwd cw rs :
  Forall plain cw -> Forall name_ok rs ->
  let P := join (render true cw) [render false rs] in
  pystr.startswith P "/" = true
  /\ pystr.startswith P "//" = false
  /\ fold_left (normpath_step 1) (pystr.split P) []
     = fold_left (normpath_step 1) (pystr.split (pystr.join rs)) cw.
Proof.
  intros Hcw Hrs. unfold join. cbn [fold_left]. unfold join_step.
  change (render false rs) with (pystr.join rs).
  rewrite join_startswith by assumption.
  pose proof (plain_all_name_ok cw Hcw) as Hcw'.
  destruct cw as [|x cw0] eqn:Hcw0.
  - change (render true []) with "/". simpl.
    rewrite append_cons, !append_nil_l.
    rewrite !startswith_cons, startswith_nil.
    rewrite join_startswith by assumption. auto.
  - rewrite <- Hcw0 in *. assert (Hne : cw <> []) by (subst; discriminate).
    rewrite render_endswith by assumption.
    destruct (String.eqb_spec (render true cw) "") as [He|_].
    { exfalso. eapply render_nonempty; eauto. }
    cbn [orb]. rewrite split_app_sep, fold_left_app.
    rewrite fold_split_render by assumption. rewrite app_nil_l.
    split; [|split; [|reflexivity]]; unfold render.
    + rewrite !append_cons, !append_nil_l.
      rewrite !startswith_cons, startswith_nil. reflexivity.
    + rewrite !append_cons, !append_nil_l.
      rewrite !startswith_cons.
      rewrite startswith_app by (apply join_nonempty; assumption).
      rewrite join_startswith by assumption. reflexivity.
Qed.

Lemma fold_split_join st rs :
  Forall name_ok rs ->
  fold_left (normpath_step 1) (pystr.split (pystr.join rs)) st
  = fold_left (normpath_step 1) rs st.
Proof.
  intros H. destruct rs as [|x rs]; [reflexivity|].
  rewrite split_join; [reflexivity|discriminate|].
  eapply Forall_impl; [exact H|]. intros y. apply name_ok_noslash.
Qed.

End Realpath.

(** ** A filesystem without symbolic links *)

Section LinkFree.
Import posixpath.

Variable E : Env.
Variable cw : list string.
Hypothesis no_links : no_symlinks E.
Hypothesis cwd_canonical : canonical_cwd E cw.

Lemma walk_nolinks recur comps abs st seen :
  Forall (fun x => noslash x = true) comps ->
  Forall name_ok st ->
  walk E recur comps (render abs st) seen
  = Some (render abs (fold_left (normpath_step (slashes abs)) comps st),
          true, seen).
Proof.
  intros Hcomps. revert st.
  induction Hcomps as [|c comps Hc Hcomps IH]; intros st Hst; [reflexivity|].
  pose proof (step_name_ok (slashes abs) st c Hst Hc) as Hnext.
  cbn [walk fold_left].
  destruct (String.eqb_spec c "") as [->|H1].
  { simpl. apply IH. assumption. }
  destruct (String.eqb_spec c ".") as [->|H2].
  { simpl. apply IH. assumption. }
  cbn [orb].
  destruct (String.eqb_spec c "..") as [->|H3].
  - destruct (snoc_or_nil st) as [->|(st' & x & ->)].
    + destruct abs.
      * change (render true []) with "/". cbn - [walk render].
        change "/" with (render true []) at 1. apply IH. constructor.
      * change (render false []) with "". cbn - [walk render].
        change ".." with (render false [".."]) at 1. apply IH.
        repeat constructor; discriminate.
    + apply Forall_app in Hst as [Hst' Hx].
      inversion Hx as [|? ? Hx' _]; subst.
      destruct (String.eqb_spec (render abs (st' ++ [x])) "") as [He|_].
      { exfalso. eapply render_nonempty; [| |exact He].
        - apply Forall_app. split; [assumption|exact Hx].
        - right. destruct st'; discriminate. }
      cbn [negb]. rewrite split_render by assumption.
      destruct (String.eqb_spec x "..") as [->|Hx2].
      * unfold join. cbn [fold_left].
        rewrite join_step_render by (assumption || apply dotdot_ok).
        rewrite join_step_render.
        2:{ apply Forall_app. split; [assumption|].
            repeat constructor; discriminate. }
        2:{ apply dotdot_ok. }
        rewrite step_up_more. rewrite <- app_assoc. apply IH.
        rewrite step_up_more in Hnext. exact Hnext.
      * rewrite step_pop by assumption. apply IH. assumption.
  - unfold join. cbn [fold_left].
    rewrite join_step_render by (assumption || (split; assumption)).
    rewrite no_links. cbn [negb]. rewrite step_push by assumption.
    apply IH. rewrite step_push in Hnext by assumption. exact Hnext.
Qed.

(** Without symbolic links [realpath] is the lexical canonical form. *)
Lemma realpath_nolinks p :
  realpath E p = Some (render true (canon cw p)).
Proof.
  destruct cwd_canonical as [Hcwd Hcw]. unfold realpath. rewrite joinrealpath_unfold.
  unfold canon. destruct (isabs p) eqn:Habs.
  - destruct (isabs_cons p Habs) as [p' ->]. cbn [pystr.tail].
    change "/" with (render true []) at 1.
    rewrite walk_nolinks by (assumption || apply split_noslash || constructor).
    f_equal. unfold abspath.
    assert (Hfc : Forall plain
                    (fold_left (normpath_step (slashes true)) (pystr.split p') [])).
    { apply fold_abs_plain; [constructor|apply split_noslash]. }
    unfold isabs.
    rewrite (proj1 (render_abs_startswith _ (plain_all_name_ok _ Hfc))).
    cbn [negb]. rewrite normpath_render_plain by assumption.
    change (String "/" p') with ("" ++ "/" ++ p').
    rewrite split_app_sep. reflexivity.
  - change "" with (render false []) at 1.
    rewrite walk_nolinks by (assumption || apply split_noslash || constructor).
    f_equal. unfold abspath. cbn [slashes].
    set (rs := fold_left (normpath_step 0) (pystr.split p) []).
    assert (Hrs : Forall name_ok rs).
    { subst rs. clear. generalize (split_noslash p).
      generalize (pystr.split p) as cs. intros cs Hcs.
      assert (H : forall st, Forall name_ok st ->
                   Forall name_ok (fold_left (normpath_step 0) cs st)).
      { induction Hcs as [|c cs Hc Hcs IH]; intros st Hst; [assumption|].
        simpl. apply IH. apply step_name_ok; assumption. }
      apply H. constructor. }
    unfold isabs. change (render false rs) with (pystr.join rs) at 1.
    rewrite join_startswith by assumption. cbn [negb].
    rewrite Hcwd.
    destruct (join_cwd cw rs Hcw Hrs) as (H1 & H2 & H3).
    rewrite normpath_abs by assumption. rewrite H3.
    rewrite fold_split_join by assumption.
    subst rs. rewrite replay by constructor. reflexivity.
Qed.

Lemma normalize_path_nolinks p :
  p <> memory ->
  normalize_path E p = Some (render true (canon cw p)).
Proof.
  intros Hp. unfold normalize_path.
  apply String.eqb_neq in Hp. rewrite Hp.
  rewrite realpath_nolinks. unfold normcase.
  rewrite normpath_render_plain; [reflexivity|].
  apply canon_plain. apply cwd_canonical.
Qed.

End LinkFree.

Section Redundant.
Import posixpath.










End Redundant.

(** The doctests of [normalize_path], on a filesystem without links. *)
Example normalize_path_doctests :
  normalize_path plain_fs "/a/b/c/" = Some "/a/b/c"
  /\ normalize_path plain_fs "/a/b/c" = Some "/a/b/c"
  /\ normalize_path plain_fs "/a/b/c////////" = Some "/a/b/c"
  /\ normalize_path plain_fs "///a/b/c" = Some "/a/b/c"
  /\ normalize_path plain_fs "/a/././b/../b/c/" = Some "/a/b/c"
  /\ normalize_path plain_fs ":memory:" = Some ":memory:".
Proof. vm_compute. repeat split; reflexivity. Qed.




(** ** The acquire and release protocol *)

Ltac unfold_M :=
  unfold __enter__, __exit__, __del__, close, chain, in_transaction, get,
    modify_self, try_except, raise, mbind, M_bind, bind,
    mret, M_ret, ret in *.

Lemma lock_acquire_frame t wait timeout s :
  let '(s', r) := lock_acquire t wait timeout s in
  self s' = self s /\
  CONNECTION_LOCKS (world s') = CONNECTION_LOCKS (world s) /\
  exists g, trace (world s') =
              (trace (world s) ++ [EvAcquire (lock (self s)) t timeout g])%list
            /\ (r = Return false -> g = false).
Proof.
  unfold lock_acquire. destruct (lock (self s)) as [|l] eqn:Hl; simpl.
  - repeat split; eauto. exists true. split; [reflexivity|discriminate].
  - destruct (RLock_acquire t timeout wait (rlocks (world s) !!! l)) as [lk r].
    simpl. repeat split. eexists; split; [reflexivity|].
    destruct r as [[]| |]; try discriminate; auto.
Qed.

(** C2: when the engine reports the transaction state [b], [__enter__]
    calls [acquire] on the lock of the session exactly when [b] is false or
    [lock_transactions] is off (one call, with the configured timeout);
    when a transaction is open and [lock_transactions] is on it touches no
    lock and only records the state.  Whenever it returns,
    [was_in_transaction] is the current transaction state. *)
Theorem enter_acquires_iff (t : tid) (wait : option Q) (s : State) (b : bool) :
  sqlite3.in_transaction (connection (self s)) = Return b ->
  let '(s', r) := __enter__ t wait s in
  (if negb b || negb (lock_transactions (self s))
   then exists granted,
          trace (world s') =
            (trace (world s)
               ++ [EvAcquire (lock (self s)) t (lock_timeout (self s)) granted])%list
   else s' = {| self := set_was_in_transaction b (self s); world := world s |}
        /\ r = Return tt)
  /\ (r = Return tt -> was_in_transaction (self s') = b).
Proof.
  intros Hb. unfold_M. rewrite Hb.
  destruct (negb b || negb (lock_transactions (self s))) eqn:Hc.
  - pose proof (lock_acquire_frame t wait (lock_timeout (self s)) s) as Hf.
    destruct (lock_acquire t wait (lock_timeout (self s)) s) as [s1 r1].
    destruct Hf as (Hself & _ & g & Htr & _).
    destruct r1 as [[|]| |]; simpl; try rewrite Hself; try rewrite Hb; simpl;
      (split; [eauto | try discriminate; auto]).
  - rewrite Hb. simpl. destruct s; auto.
Qed.

(** A session outside a transaction: the acquisition is attempted. *)
Lemma enter_acquires_iff_witness :
  exists granted,
    trace (world (fst (__enter__ 2%nat (Some 1%Q) (second_session (PyInt 0)))))
    = (trace (world (second_session (PyInt 0)))
         ++ [EvAcquire (RLockAt 0%nat) 2%nat (PyInt 0) granted])%list.
Proof.
  pose proof (enter_acquires_iff 2%nat (Some 1%Q) (second_session (PyInt 0))
                false eq_refl) as H.
  vm_compute in H. destruct H as [[g H] _]. exists g. vm_compute. exact H.
Defined.

Lemma lock_release_frame t s :
  let '(s', r) := lock_release t s in
  self s' = self s /\
  CONNECTION_LOCKS (world s') = CONNECTION_LOCKS (world s) /\
  trace (world s') = (trace (world s) ++ [EvRelease (lock (self s)) t])%list /\
  (forall e, r = Raise e -> exn_class e = Std RuntimeError) /\
  r <> Block.
Proof.
  unfold lock_release. destruct (lock (self s)) as [|l]; simpl.
  - repeat split; try discriminate.
  - unfold RLock_release.
    destruct (_ || _); [|destruct (Nat.eqb _ 0)]; simpl; repeat split;
      try discriminate; intros e [= <-]; reflexivity.
Qed.

(** A transaction of two statements: the lock taken at [BEGIN] by thread 1
    is still held after it and is free again after [commit]. *)
Example lock_held_across_transaction :
  rlocks (sys_world (run plain_fs
                       [Connect connect_ok "db" true (PyInt (-1));
                        Call 0 execute sql_begin 1%nat None])) !! 0%nat
  = Some {| rlock_owner := 1; rlock_count := 1 |}
  /\ rlocks (sys_world (run plain_fs
                          [Connect connect_ok "db" true (PyInt (-1));
                           Call 0 execute sql_begin 1%nat None;
                           Call 0 commit sql_commit 1%nat None])) !! 0%nat
     = Some RLock_new.
Proof. vm_compute. split; reflexivity. Qed.

Lemma RLock_release_count t lk :
  held_by t lk = true ->
  snd (RLock_release t lk) = Return tt
  /\ rlock_count (fst (RLock_release t lk)) = Nat.pred (rlock_count lk).
Proof.
  unfold held_by, RLock_release. intros H.
  apply andb_true_iff in H as [Hc Ho].
  apply Nat.ltb_lt in Hc. rewrite Ho. simpl.
  destruct (Nat.eqb (rlock_count lk) 0) eqn:H0.
  { apply Nat.eqb_eq in H0. lia. }
  simpl. destruct (Nat.eqb (Nat.pred (rlock_count lk)) 0) eqn:H1; simpl.
  - apply Nat.eqb_eq in H1. auto.
  - auto.
Qed.

Lemma lock_release_held t s l :
  lock (self s) = RLockAt l ->
  held_by t (rlocks (world s) !!! l) = true ->
  snd (lock_release t s) = Return true
  /\ rlock_count (rlocks (world (fst (lock_release t s))) !!! l)
     = Nat.pred (rlock_count (rlocks (world s) !!! l)).
Proof.
  intros Hl Hh. unfold lock_release. rewrite Hl.
  destruct (RLock_release_count t _ Hh) as [H1 H2].
  destruct (RLock_release t (rlocks (world s) !!! l)) as [lk r]. simpl in *.
  subst r. split; [reflexivity|].
  rewrite lookup_total_insert_eq. exact H2.
Qed.

(** C3: [__exit__] calls [release] on the lock of the session exactly when
    [lock_transactions] is off, or it is on and the session is not in a
    transaction, a closed handle counting as "not in a transaction"; the
    lock, held by the calling thread, is then released once.  In the
    remaining case (a transaction is still open) it changes nothing and the
    lock stays held.  It never raises the closed-handle error: the only
    exception it can end with is the one of [release] itself. *)
Theorem exit_releases_iff (t : tid) (s : State) :
  let '(s', r) := __exit__ t s in
  (if negb (lock_transactions (self s)) || negb (exit_in_transaction (self s))
   then trace (world s') =
          (trace (world s) ++ [EvRelease (lock (self s)) t])%list
        /\ forall l,
             lock (self s) = RLockAt l ->
             held_by t (rlocks (world s) !!! l) = true ->
             r = Return tt
             /\ rlock_count (rlocks (world s') !!! l)
                = Nat.pred (rlock_count (rlocks (world s) !!! l))
   else s' = s /\ r = Return tt)
  /\ (forall e, r = Raise e -> exn_class e = Std RuntimeError).
Proof.
  unfold __exit__, try_except, in_transaction, get, mbind, M_bind, bind, ret.
  unfold exit_in_transaction, sqlite3.in_transaction.
  pose proof (lock_release_frame t s) as Hf.
  pose proof (lock_release_held t s) as Hh.
  destruct (sqlite3.is_closed (connection (self s))); simpl;
    destruct (lock_transactions (self s)); simpl;
    try destruct (was_in_transaction (self s)); simpl;
    try destruct (sqlite3.txn_open (connection (self s))); simpl;
    try (split; [split; reflexivity|discriminate]);
    destruct (lock_release t s) as [s1 r1]; simpl in Hh;
    destruct Hf as (_ & _ & Htr & Hcls & _);
    destruct r1 as [b|e|]; simpl;
    (split; [split; [exact Htr|]|]);
    try (intros l Hl Hheld; destruct (Hh l Hl Hheld) as [Hr H2];
         try discriminate Hr; auto);
    intros e' He; try discriminate He; apply Hcls; congruence.
Qed.

(** A session that has just entered, outside a transaction: [__exit__]
    gives the lock back. *)
Lemma exit_releases_iff_witness :
  rlock_count (rlocks (world (fst (__exit__ 1%nat entered_session))) !!! 0%nat)
  = 0%nat.
Proof.
  pose proof (exit_releases_iff 1%nat entered_session) as H.
  vm_compute in H. destruct H as [[_ H] _].
  destruct (H 0%nat eq_refl eq_refl) as [_ Hc].
  vm_compute. exact Hc.
Defined.


(** C10: [S3MError] and [LockTimeoutError] are subclasses of
    [BaseException] and not of [Exception], so a [LockTimeoutError] raised by
    [__enter__] passes through an [except Exception] handler. *)
Theorem lock_timeout_escapes_except_Exception :
  issubclass S3MError (Std BaseException) = true
  /\ issubclass S3MError (Std Exception) = false
  /\ issubclass LockTimeoutError S3MError = true
  /\ issubclass LockTimeoutError (Std BaseException) = true
  /\ issubclass LockTimeoutError (Std Exception) = false
  /\ forall (t : tid) (wait : option Q) (h : M unit) (s : State),
       match __enter__ t wait s with
       | (s', Raise e) =>
           if issubclass (exn_class e) LockTimeoutError
           then try_except (__enter__ t wait) (Std Exception) h s = (s', Raise e)
           else True
       | _ => True
       end.
Proof.
  repeat split; try reflexivity.
  intros t wait h s. unfold try_except.
  destruct (__enter__ t wait s) as [s' [| e |]]; auto.
  destruct (exn_class e) as [[]| |]; simpl; auto.
Qed.

(** A contended session with a timeout of 0: the handler is not run. *)
Example lock_timeout_is_not_caught :
  try_except (__enter__ 2%nat (Some 1%Q)) (Std Exception) (ret tt)
    (second_session (PyInt 0))
  = __enter__ 2%nat (Some 1%Q) (second_session (PyInt 0))
  /\ raised_class (snd (__enter__ 2%nat (Some 1%Q) (second_session (PyInt 0))))
     = Some LockTimeoutError.
Proof. vm_compute. split; reflexivity. Qed.

(** ** What the operations leave alone *)

Lemma registry_events_snoc tr ev :
  is_registry_event ev = false ->
  registry_events (tr ++ [ev])%list = registry_events tr.
Proof.
  intros H. unfold registry_events. rewrite List.filter_app. simpl.
  rewrite H. apply app_nil_r.
Qed.

Lemma enter_frame t wait s :
  registry_untouched s (__enter__ t wait s)
  /\ path (self (fst (__enter__ t wait s))) = path (self s)
  /\ (lock (self s) = FakeLock -> no_lock_timeout (__enter__ t wait s)).
Proof.
  unfold registry_untouched, no_lock_timeout. unfold_M.
  destruct (sqlite3.in_transaction (connection (self s))) as [b|e|] eqn:Hb;
    simpl.
  3:{ unfold sqlite3.in_transaction in Hb.
      destruct (sqlite3.is_closed _); discriminate. }
  2:{ repeat split; auto; discriminate. }
  destruct (negb b || negb (lock_transactions (self s))).
  - pose proof (lock_acquire_frame t wait (lock_timeout (self s)) s) as Hf.
    unfold lock_acquire in *.
    destruct (lock (self s)) as [|l] eqn:Hl; simpl in *.
    + rewrite Hb. simpl. rewrite Hl.
      rewrite registry_events_snoc by reflexivity. auto.
    + destruct (RLock_acquire _ _ _ _) as [lk r]. simpl in *.
      destruct r as [[|]|e|]; simpl; rewrite ?Hb; simpl; rewrite ?Hl;
        rewrite registry_events_snoc by reflexivity;
        repeat split; auto; discriminate.
  - rewrite Hb. simpl. auto.
Qed.

Lemma exit_frame t s :
  registry_untouched s (__exit__ t s)
  /\ path (self (fst (__exit__ t s))) = path (self s)
  /\ (lock (self s) = FakeLock -> snd (__exit__ t s) = Return tt).
Proof.
  unfold registry_untouched. unfold_M.
  assert (Hrel : registry_untouched s (lock_release t s)
                 /\ path (self (fst (lock_release t s))) = path (self s)
                 /\ (lock (self s) = FakeLock ->
                     snd (lock_release t s) = Return true)).
  { unfold registry_untouched, lock_release.
    destruct (lock (self s)) as [|l] eqn:Hl; simpl.
    - rewrite registry_events_snoc by reflexivity. auto.
    - destruct (RLock_release _ _) as [lk r]. simpl.
      rewrite registry_events_snoc by reflexivity. rewrite Hl.
      repeat split; auto; discriminate. }
  unfold registry_untouched in Hrel.
  destruct Hrel as ((H1 & H2 & H3) & H4 & H5).
  destruct (sqlite3.in_transaction (connection (self s))) as [b|e|] eqn:Hb;
    simpl.
  3:{ unfold sqlite3.in_transaction in Hb.
      destruct (sqlite3.is_closed _); discriminate. }
  2:{ unfold sqlite3.in_transaction in Hb.
      destruct (sqlite3.is_closed _); inversion Hb; subst. simpl.
      destruct (lock_transactions (self s)); simpl;
        try destruct (was_in_transaction (self s)); simpl;
        destruct (lock_release t s) as [s1 [r|e|]]; simpl in *;
        repeat split; auto; intros Hl; specialize (H5 Hl); discriminate. }
  destruct (lock_transactions (self s)); simpl;
    try destruct (was_in_transaction (self s)); simpl;
    destruct b; simpl; auto;
    destruct (lock_release t s) as [s1 [r|e|]]; simpl in *;
    repeat split; auto; intros Hl; specialize (H5 Hl); discriminate.
Qed.

Lemma close_frame s :
  registry_untouched s (close s)
  /\ path (self (fst (close s))) = path (self s)
  /\ snd (close s) = Return tt.
Proof.
  unfold registry_untouched. unfold_M.
  destruct (closed (self s)); simpl; auto.
Qed.

Lemma engine_call_frame m eng s :
  CONNECTION_LOCKS (world (fst (engine_call m eng s))) = CONNECTION_LOCKS (world s)
  /\ rlocks (world (fst (engine_call m eng s))) = rlocks (world s)
  /\ trace (world (fst (engine_call m eng s))) = (trace (world s) ++ [EvEngine m])%list
  /\ lock (self (fst (engine_call m eng s))) = lock (self s)
  /\ path (self (fst (engine_call m eng s))) = path (self s)
  /\ lock_transactions (self (fst (engine_call m eng s))) = lock_transactions (self s)
  /\ was_in_transaction (self (fst (engine_call m eng s))) = was_in_transaction (self s)
  /\ match snd (engine_call m eng s) with
     | Raise e => exists c, exn_class e = Std c
     | _ => True
     end.
Proof.
  unfold engine_call.
  destruct (eng (connection (self s), cursor (self s))) as [hc r]. simpl.
  repeat split; auto. destruct r; simpl; eauto.
Qed.

Lemma with_self_frame {A} t wait (body : M A) s :
  (forall s0, registry_untouched s0 (body s0)
              /\ path (self (fst (body s0))) = path (self s0)) ->
  registry_untouched s (with_self t wait body s)
  /\ path (self (fst (with_self t wait body s))) = path (self s).
Proof.
  intros Hbody. unfold with_self.
  destruct (enter_frame t wait s) as ((E1 & E2 & E3) & E4 & _).
  destruct (__enter__ t wait s) as [s1 r1]. simpl in *.
  destruct r1 as [u|e|]; simpl; unfold registry_untouched; simpl; auto.
  destruct (Hbody s1) as ((B1 & B2 & B3) & B4).
  destruct (body s1) as [s2 r2]. simpl in *.
  destruct (exit_frame t s2) as ((X1 & X2 & X3) & X4 & _).
  assert (Hgoal :
    CONNECTION_LOCKS (world (fst (__exit__ t s2))) = CONNECTION_LOCKS (world s)
    /\ registry_events (trace (world (fst (__exit__ t s2))))
       = registry_events (trace (world s))
    /\ lock (self (fst (__exit__ t s2))) = lock (self s)
    /\ path (self (fst (__exit__ t s2))) = path (self s)).
  { repeat split; congruence. }
  destruct r2 as [a|e|]; simpl.
  - destruct (__exit__ t s2) as [s3 [u3|e3|]]; simpl in *; tauto.
  - destruct (__exit__ t s2) as [s3 [u3|e3|]]; simpl in *; tauto.
  - repeat split; congruence.
Qed.

Lemma with_self_no_lock_timeout {A} t wait (body : M A) s :
  lock (self s) = FakeLock ->
  (forall s0, lock (self (fst (body s0))) = lock (self s0)
              /\ no_lock_timeout (body s0)) ->
  no_lock_timeout (with_self t wait body s).
Proof.
  intros Hl Hbody. unfold with_self, no_lock_timeout.
  destruct (enter_frame t wait s) as ((_ & _ & E3) & _ & E5).
  specialize (E5 Hl). unfold no_lock_timeout in E5.
  destruct (__enter__ t wait s) as [s1 r1]. simpl in *.
  destruct r1 as [u|e|]; simpl; auto.
  destruct (Hbody s1) as (B1 & B2). unfold no_lock_timeout in B2.
  destruct (body s1) as [s2 r2]. simpl in *.
  destruct (exit_frame t s2) as (_ & _ & X5).
  assert (X6 : snd (__exit__ t s2) = Return tt) by (apply X5; congruence).
  destruct (__exit__ t s2) as [s3 r3]. simpl in *. subst r3.
  destruct r2; simpl; auto.
Qed.

Lemma call_method_frame m eng t wait s :
  registry_untouched s (call_method m eng t wait s)
  /\ path (self (fst (call_method m eng t wait s))) = path (self s)
  /\ (lock (self s) = FakeLock -> no_lock_timeout (call_method m eng t wait s)).
Proof.
  assert (Hbody : forall s0,
            registry_untouched s0 (engine_call m eng s0)
            /\ path (self (fst (engine_call m eng s0))) = path (self s0)).
  { intros s0. unfold registry_untouched.
    destruct (engine_call_frame m eng s0) as (F1 & F2 & F3 & F4 & F5 & _).
    rewrite F1, F3, F4, F5.
    rewrite registry_events_snoc by reflexivity. auto. }
  assert (Hbody2 : forall s0,
            lock (self (fst (engine_call m eng s0))) = lock (self s0)
            /\ no_lock_timeout (engine_call m eng s0)).
  { intros s0. unfold no_lock_timeout.
    destruct (engine_call_frame m eng s0) as (F1 & F2 & F3 & F4 & F5 & F6 & F7 & F8).
    split; auto. destruct (snd (engine_call m eng s0)); auto.
    destruct F8 as [c Hc]. rewrite Hc. discriminate. }
  pose proof (with_self_frame t wait _ s Hbody) as Hw.
  pose proof (with_self_no_lock_timeout t wait (engine_call m eng) s) as Hn.
  unfold registry_untouched, no_lock_timeout in *.
  destruct Hw as ((W1 & W2 & W3) & W4).
  unfold call_method, chain; destruct m; unfold_M;
    destruct (with_self t wait (engine_call _ eng) s) as [s1 r1]; simpl in *;
    destruct r1; simpl; repeat split; auto;
    try (intros Hl; specialize (Hn Hl Hbody2); auto).
Qed.

(** C6: opening a session on [:memory:] leaves the world as it was (no
    registry entry is created or looked up) and gives it a [FakeLock];
    [acquire] and [release] on that lock return true; and no operation of
    such a session -- enter, exit, close or a delegated call -- changes
    [CONNECTION_LOCKS], adds a registry access to the trace, or raises
    [LockTimeoutError]. *)
Theorem ephemeral_session_uses_no_registry :
  (forall E connect lt timeout w,
     let '(w', r) := Connection__init__ E connect memory lt timeout w in
     w' = w
     /\ match r with
        | Return c => lock c = FakeLock /\ path c = memory
        | _ => True
        end)
  /\ (forall t wait timeout s,
        lock (self s) = FakeLock ->
        snd (lock_acquire t wait timeout s) = Return true
        /\ snd (lock_release t s) = Return true)
  /\ (forall s,
        lock (self s) = FakeLock ->
        (forall t wait,
            registry_untouched s (__enter__ t wait s)
            /\ no_lock_timeout (__enter__ t wait s))
        /\ (forall t,
               registry_untouched s (__exit__ t s)
               /\ no_lock_timeout (__exit__ t s))
        /\ (registry_untouched s (close s) /\ no_lock_timeout (close s))
        /\ (forall m eng t wait,
               registry_untouched s (call_method m eng t wait s)
               /\ no_lock_timeout (call_method m eng t wait s))).
Proof.
  split; [|split].
  - intros E connect lt timeout w. unfold Connection__init__, normalize_path.
    simpl. destruct (connect memory) as [h|e|]; simpl; auto.
  - intros t wait timeout s Hl. unfold lock_acquire, lock_release.
    rewrite Hl. simpl. auto.
  - intros s Hl. repeat split.
    + apply enter_frame.
    + apply enter_frame.
    + apply enter_frame.
    + apply enter_frame; assumption.
    + apply exit_frame.
    + apply exit_frame.
    + apply exit_frame.
    + unfold no_lock_timeout.
      destruct (exit_frame t s) as (_ & _ & H). rewrite H; auto.
    + apply close_frame.
    + apply close_frame.
    + apply close_frame.
    + unfold no_lock_timeout.
      destruct (close_frame s) as (_ & _ & H). rewrite H; auto.
    + apply call_method_frame.
    + apply call_method_frame.
    + apply call_method_frame.
    + apply call_method_frame; assumption.
Qed.

(** An [execute] on a session of [:memory:]. *)
Lemma ephemeral_session_uses_no_registry_witness :
  registry_untouched memory_session
    (call_method execute sql_begin 1%nat None memory_session)
  /\ no_lock_timeout (call_method execute sql_begin 1%nat None memory_session).
Proof.
  apply (proj2 (proj2 ephemeral_session_uses_no_registry) memory_session eq_refl).
Defined.

(** C8: when the acquisition made by [__enter__] returns false (the timeout
    ran out), every delegated operation raises the [LockTimeoutError] built
    from the session: its [connection] is the session, its message carries
    the configured timeout, the attributes of the session -- the engine
    handle among them -- are unchanged, and the trace gains the failed
    acquisition and no engine call. *)
Theorem lock_timeout_aborts_before_engine
    (m : method) (eng : sqlite3.call) (t : tid) (wait : option Q)
    (s s1 : State) (b : bool) :
  sqlite3.in_transaction (connection (self s)) = Return b ->
  negb b || negb (lock_transactions (self s)) = true ->
  lock_acquire t wait (lock_timeout (self s)) s = (s1, Return false) ->
  let e := LockTimeoutError__init__ (Some (self s)) None in
  __enter__ t wait s = (s1, Raise e)
  /\ call_method m eng t wait s = (s1, Raise e)
  /\ exn_class e = LockTimeoutError
  /\ exn_connection e = Some (self s)
  /\ exn_msg e = Percent "Lock timeout exceeded (> %s)" (lock_timeout (self s))
  /\ self s1 = self s
  /\ trace (world s1) =
       (trace (world s)
          ++ [EvAcquire (lock (self s)) t (lock_timeout (self s)) false])%list.
Proof.
  intros Hb Hatt Hacq e.
  assert (Hself : self s1 = self s).
  { pose proof (lock_acquire_frame t wait (lock_timeout (self s)) s) as Hf.
    rewrite Hacq in Hf. tauto. }
  assert (Hnum : is_number (lock_timeout (self s)) = true).
  { unfold lock_acquire in Hacq. destruct (lock (self s)); [discriminate|].
    unfold RLock_acquire in Hacq.
    destruct (lock_timeout (self s)); simpl in *; auto.
    inversion Hacq. }
  assert (Henter : __enter__ t wait s = (s1, Raise e)).
  { unfold_M. rewrite Hb, Hatt, Hacq. simpl. rewrite Hself. reflexivity. }
  split; [exact Henter|]. split.
  { unfold call_method, chain, with_self; destruct m; unfold_M;
      rewrite Henter; reflexivity. }
  split; [reflexivity|]. split; [reflexivity|]. split.
  { unfold e, LockTimeoutError__init__. simpl. rewrite Hnum. reflexivity. }
  split; [exact Hself|].
  pose proof (lock_acquire_frame t wait (lock_timeout (self s)) s) as Hf.
  rewrite Hacq in Hf. destruct Hf as (_ & _ & g & Htr & Hg).
  rewrite (Hg eq_refl) in Htr. exact Htr.
Qed.

(** The second session of a contended file, with a timeout of 0. *)
Lemma lock_timeout_aborts_before_engine_witness :
  call_method execute sql_begin 2%nat (Some 1%Q) (second_session (PyInt 0))
  = (fst (lock_acquire 2%nat (Some 1%Q) (PyInt 0) (second_session (PyInt 0))),
     Raise (LockTimeoutError__init__ (Some (self (second_session (PyInt 0)))) None)).
Proof.
  refine (proj1 (proj2 (lock_timeout_aborts_before_engine execute sql_begin
            2%nat (Some 1%Q) (second_session (PyInt 0))
            (fst (lock_acquire 2%nat (Some 1%Q) (PyInt 0) (second_session (PyInt 0))))
            false _ _ _))); vm_compute; reflexivity.
Defined.

(** ** Errors of the engine *)







(** ** The lock registry *)

Lemma init_registry E connect p lt timeout w w' c :
  Connection__init__ E connect p lt timeout w = (w', Return c) ->
  (path c = memory /\ lock c = FakeLock /\ w' = w)
  \/ (path c <> memory
      /\ exists l, CONNECTION_LOCKS w' !! path c = Some l /\ lock c = RLockAt l
         /\ (CONNECTION_LOCKS w' = CONNECTION_LOCKS w
             \/ (CONNECTION_LOCKS w !! path c = None
                 /\ CONNECTION_LOCKS w' = <[path c := l]> (CONNECTION_LOCKS w)))).
Proof.
  unfold Connection__init__.
  destruct (normalize_path E p) as [k|]; [|discriminate].
  destruct (connect k) as [h|e|]; try discriminate.
  destruct (String.eqb k memory) eqn:Hk.
  - intros [= <- <-]. left. simpl. apply String.eqb_eq in Hk. auto.
  - apply String.eqb_neq in Hk. simpl.
    destruct (CONNECTION_LOCKS w !! k) as [l|] eqn:Hreg.
    + intros [= <- <-]. right. simpl. eauto 10.
    + intros [= <- <-]. right. simpl. split; [assumption|].
      eexists. rewrite lookup_insert_eq. eauto 10.
Qed.

Lemma init_failure E connect p lt timeout w w' r :
  Connection__init__ E connect p lt timeout w = (w', r) ->
  (forall c, r <> Return c) -> w' = w.
Proof.
  unfold Connection__init__.
  destruct (normalize_path E p) as [k|]; [|intros [= <- <-]; reflexivity].
  destruct (connect k) as [h|e|]; try (intros [= <- <-]; reflexivity).
  destruct (String.eqb k memory).
  - intros [= <- <-] H. exfalso. eapply H. reflexivity.
  - simpl. destruct (CONNECTION_LOCKS w !! k);
      intros [= <- <-] H; exfalso; eapply H; reflexivity.
Qed.

Lemma on_session_inv {A} i (m : M A) S :
  (forall s, registry_untouched s (m s)
             /\ path (self (fst (m s))) = path (self s)) ->
  registry_inv S -> registry_inv (on_session i m S).
Proof.
  intros Hm Hinv. unfold on_session.
  destruct (sessions S !! i) as [c|] eqn:Hi; [|exact Hinv].
  destruct (Hm {| self := c; world := sys_world S |}) as ((M1 & _ & M3) & M4).
  destruct (m {| self := c; world := sys_world S |}) as [s r]. simpl in *.
  intros j c' Hj Hp. simpl in *.
  destruct (decide (i = j)) as [->|Hne].
  - rewrite list_lookup_insert_eq in Hj by (eapply lookup_lt_Some; eauto).
    injection Hj as <-. rewrite M1, M3, M4.
    apply (Hinv j c Hi). congruence.
  - rewrite list_lookup_insert_ne in Hj by assumption.
    rewrite M1. eauto.
Qed.

Lemma step_inv E S a : registry_inv S -> registry_inv (step E S a).
Proof.
  intros Hinv. destruct a as [connect p lt timeout|i|i t wait|i t|i m eng t wait];
    simpl.
  - destruct (Connection__init__ E connect p lt timeout (sys_world S))
      as [w r] eqn:Hinit.
    destruct r as [c|e|].
    + apply init_registry in Hinit.
      intros j c' Hj Hp. simpl in *.
      apply lookup_app_Some in Hj as [Hj|[Hlen Hj]].
      * destruct (Hinv j c' Hj Hp) as (l' & Hreg & Hlock).
        destruct Hinit as [(_ & _ & ->)|(Hne & l & Hl & Hlk & Hchg)]; [eauto|].
        destruct Hchg as [->|(Hnone & ->)]; [eauto|].
        destruct (decide (path c = path c')) as [Heq|Hneq].
        { rewrite Heq in Hnone. congruence. }
        rewrite lookup_insert_ne by assumption. eauto.
      * destruct (j - length (sessions S)) as [|n]; [|destruct n; discriminate].
        injection Hj as <-.
        destruct Hinit as [(Hm & _)|(_ & l & Hl & Hlk & _)]; [contradiction|eauto].
    + apply init_failure in Hinit; [|discriminate]. subst w. exact Hinv.
    + apply init_failure in Hinit; [|discriminate]. subst w. exact Hinv.
  - apply on_session_inv; [|assumption]. intros s.
    destruct (close_frame s) as (H1 & H2 & _). auto.
  - apply on_session_inv; [|assumption]. intros s.
    destruct (enter_frame t wait s) as (H1 & H2 & _). auto.
  - apply on_session_inv; [|assumption]. intros s.
    destruct (exit_frame t s) as (H1 & H2 & _). auto.
  - apply on_session_inv; [|assumption]. intros s.
    destruct (call_method_frame m eng t wait s) as (H1 & H2 & _). auto.
Qed.

Lemma run_inv E acts : registry_inv (run E acts).
Proof.
  unfold run.
  assert (H : forall S, registry_inv S -> registry_inv (fold_left (step E) acts S)).
  { induction acts as [|a acts IH]; intros S HS; simpl; [exact HS|].
    apply IH. apply step_inv. exact HS. }
  apply H. intros i c Hi. discriminate.
Qed.

(** C1 (amended): for every filesystem-path key, as soon as some session
    has been bound to it -- open or closed, however many there are -- the
    registry holds exactly one entry for the key, and every session bound to
    the key refers to the lock of that entry.  Nothing removes the entry:
    it is still there after every session of the key has been closed. *)
Theorem registry_entry_shared_and_never_evicted
    (E : posixpath.Env) (acts : list action) (k : string) :
  k <> memory ->
  (exists i c, sessions (run E acts) !! i = Some c /\ path c = k) ->
  exists l,
    CONNECTION_LOCKS (sys_world (run E acts)) !! k = Some l
    /\ forall j c, sessions (run E acts) !! j = Some c -> path c = k ->
                   lock c = RLockAt l.
Proof.
  intros Hk (i & c & Hi & Hp). subst k.
  destruct (run_inv E acts i c Hi Hk) as (l & Hreg & Hlock).
  exists l. split; [exact Hreg|].
  intros j c' Hj Hp'.
  destruct (run_inv E acts j c' Hj) as (l' & Hreg' & Hlock'); [congruence|].
  rewrite Hp' in Hreg'. congruence.
Qed.

(** The run of [opened_and_closed] satisfies the hypotheses of C1. *)
Lemma registry_entry_shared_and_never_evicted_witness :
  exists l,
    CONNECTION_LOCKS (sys_world opened_and_closed) !! "/a/b" = Some l
    /\ forall j c, sessions opened_and_closed !! j = Some c -> path c = "/a/b" ->
                   lock c = RLockAt l.
Proof.
  apply (registry_entry_shared_and_never_evicted plain_fs
           [Connect connect_ok "/a/b" true (PyInt (-1)); Close 0] "/a/b").
  - discriminate.
  - exists 0%nat. eexists. split; [vm_compute; reflexivity|reflexivity].
Defined.

(** Counterexample to C1 as stated: one session is opened on [/a/b] and
    closed; every session bound to that key is then closed, and the
    registry still holds the entry made for it. *)
Lemma registry_entry_survives_close :
  (exists c, sessions opened_and_closed !! 0%nat = Some c
             /\ path c = "/a/b" /\ closed c = true)
  /\ (forall i c, sessions opened_and_closed !! i = Some c ->
                  path c = "/a/b" -> closed c = true)
  /\ "/a/b" <> memory
  /\ CONNECTION_LOCKS (sys_world opened_and_closed) !! "/a/b" = Some 0%nat.
Proof.
  split; [|split; [|split]].
  - eexists. vm_compute. repeat split; reflexivity.
  - intros [|[|i]] c; vm_compute; intros [= <-]; reflexivity.
  - discriminate.
  - vm_compute. reflexivity.
Qed.

(** ** Timeouts *)

Lemma RLock_acquire_unbounded t timeout wait lk q :
  timeout_seconds timeout = Some q ->
  Qeq_bool q (-1) = true ->
  match snd (RLock_acquire t timeout wait lk) with
  | Return b => b = true
  | Raise _ => False
  | Block => wait = None /\ held_by t lk = false /\ rlock_count lk <> 0%nat
  end.
Proof.
  intros Hq Hu. unfold RLock_acquire, held_by. rewrite Hq, Hu. simpl.
  destruct (Nat.ltb 0 (rlock_count lk) && Nat.eqb (rlock_owner lk) t); simpl; auto.
  destruct (Nat.eqb (rlock_count lk) 0) eqn:H0; simpl; auto.
  apply Nat.eqb_neq in H0.
  destruct wait; simpl; auto.
Qed.

(** C4 (amended): with [lock_timeout = -1], which is the default,
    [__enter__] never raises [LockTimeoutError] nor any error of the
    acquisition call -- if it raises at all, the handle was closed and the
    error came from reading the transaction state, before any acquisition --
    and it waits without bound: when another thread holds the lock and never
    releases it, [__enter__] does not come back. *)
Theorem enter_default_timeout_never_raises
    (t : tid) (wait : option Q) (s : State) (q : Q) :
  timeout_seconds (lock_timeout (self s)) = Some q ->
  Qeq_bool q (-1) = true ->
  timeout_seconds default_lock_timeout = Some (-1)%Q
  /\ (forall e,
         snd (__enter__ t wait s) = Raise e ->
         sqlite3.is_closed (connection (self s)) = true
         /\ fst (__enter__ t wait s) = s
         /\ exn_class e = Std sqlite3_ProgrammingError)
  /\ (forall l,
         sqlite3.is_closed (connection (self s)) = false ->
         negb (sqlite3.txn_open (connection (self s)))
           || negb (lock_transactions (self s)) = true ->
         lock (self s) = RLockAt l ->
         rlock_count (rlocks (world s) !!! l) <> 0%nat ->
         held_by t (rlocks (world s) !!! l) = false ->
         wait = None ->
         snd (__enter__ t wait s) = Block).
Proof.
  intros Hq Hu. split; [reflexivity|]. split.
  - intros e. unfold_M. unfold sqlite3.in_transaction.
    destruct (sqlite3.is_closed (connection (self s))) eqn:Hopen.
    { simpl. intros [= <-]. repeat split. }
    destruct (negb _ || negb _).
    2:{ simpl. rewrite Hopen. simpl. discriminate. }
    unfold lock_acquire. destruct (lock (self s)) as [|l]; simpl.
    + rewrite Hopen. simpl. discriminate.
    + pose proof (RLock_acquire_unbounded t _ wait (rlocks (world s) !!! l) q Hq Hu)
        as Hacq.
      destruct (RLock_acquire _ _ _ _) as [lk r]. simpl in *.
      destruct r as [[|]|e'|]; simpl; rewrite ?Hopen; simpl;
        try discriminate; contradiction.
  - intros l Hopen Hatt Hl Hcnt Hheld ->. unfold_M.
    unfold sqlite3.in_transaction. rewrite Hopen, Hatt.
    unfold lock_acquire. rewrite Hl. unfold RLock_acquire.
    rewrite Hq, Hu. unfold held_by in Hheld. rewrite Hheld.
    apply Nat.eqb_neq in Hcnt. rewrite Hcnt. reflexivity.
Qed.

(** The second session of a contended file, default timeout: it blocks. *)
Lemma enter_default_timeout_never_raises_witness :
  snd (__enter__ 2%nat None (second_session (PyInt (-1)))) = Block.
Proof.
  refine (proj2 (proj2 (enter_default_timeout_never_raises 2%nat None
                          (second_session (PyInt (-1))) (-1)%Q _ _))
            0%nat _ _ _ _ _ _);
    vm_compute; (reflexivity || discriminate).
Defined.

(** Counterexample to C4 as stated: with the non-positive timeout [0] a
    contended acquisition is given up at once and [__enter__] raises
    [LockTimeoutError]; with [-2] the acquisition call itself raises
    ValueError. *)
Lemma nonpositive_timeout_raises :
  lock_timeout (self (second_session (PyInt 0))) = PyInt 0
  /\ raised_class (snd (__enter__ 2%nat (Some 1%Q) (second_session (PyInt 0))))
     = Some LockTimeoutError
  /\ lock_timeout (self (second_session (PyInt (-2)))) = PyInt (-2)
  /\ raised_class (snd (__enter__ 2%nat (Some 1%Q) (second_session (PyInt (-2)))))
     = Some (Std ValueError).
Proof. vm_compute. repeat split; reflexivity. Qed.

(** ** The lock across a delegated call *)

Lemma RLock_acquire_available t v wait lk :
  timeout_ok v = true -> available t lk = true ->
  RLock_acquire t v wait lk
  = ({| rlock_owner := t; rlock_count := S (rlock_count lk) |}, Return true).
Proof.
  unfold timeout_ok, available, held_by, RLock_acquire.
  destruct (timeout_seconds v) as [q|]; [|discriminate].
  intros Hq Hav.
  destruct (Qeq_bool q (-1)); simpl in *.
  - destruct (Nat.ltb 0 (rlock_count lk) && Nat.eqb (rlock_owner lk) t) eqn:Hh;
      [reflexivity|].
    rewrite orb_false_r in Hav. rewrite Hav.
    apply Nat.eqb_eq in Hav. rewrite Hav. reflexivity.
  - apply negb_true_iff in Hq. rewrite Hq.
    destruct (Nat.ltb 0 (rlock_count lk) && Nat.eqb (rlock_owner lk) t) eqn:Hh;
      [reflexivity|].
    rewrite orb_false_r in Hav. rewrite Hav.
    apply Nat.eqb_eq in Hav. rewrite Hav. reflexivity.
Qed.

Lemma RLock_release_held_state t lk :
  held_by t lk = true ->
  snd (RLock_release t lk) = Return tt
  /\ rlock_count (fst (RLock_release t lk)) = Nat.pred (rlock_count lk)
  /\ available t (fst (RLock_release t lk)) = true.
Proof.
  unfold held_by, RLock_release, available, held_by. intros H.
  apply andb_true_iff in H as [Hc Ho].
  apply Nat.ltb_lt in Hc. rewrite Ho. simpl.
  destruct (Nat.eqb (rlock_count lk) 0) eqn:H0.
  { apply Nat.eqb_eq in H0. lia. }
  simpl. destruct (Nat.eqb (Nat.pred (rlock_count lk)) 0) eqn:H1; simpl.
  - apply Nat.eqb_eq in H1. auto.
  - rewrite H1, Ho. simpl. apply Nat.eqb_neq in H1.
    repeat split. rewrite andb_true_r. apply Nat.ltb_lt. lia.
Qed.

Lemma RLock_release_not_held t lk :
  held_by t lk = false ->
  RLock_release t lk
  = (lk, Raise {| std_class := RuntimeError;
                  std_msg := "cannot release un-acquired lock" |}).
Proof.
  unfold held_by, RLock_release. intros H.
  destruct (Nat.eqb (rlock_count lk) 0) eqn:H0; [reflexivity|].
  apply Nat.eqb_neq in H0.
  assert (H1 : Nat.ltb 0 (rlock_count lk) = true) by (apply Nat.ltb_lt; lia).
  rewrite H1 in H. simpl in H. rewrite H. reflexivity.
Qed.

Lemma held_after_acquire t c :
  held_by t {| rlock_owner := t; rlock_count := S c |} = true.
Proof. unfold held_by. simpl. apply Nat.eqb_refl. Qed.

Lemma held_available t lk : held_by t lk = true -> available t lk = true.
Proof. unfold available. intros ->. apply orb_true_r. Qed.


Lemma held_positive t lk : held_by t lk = true -> (0 < rlock_count lk)%nat.
Proof.
  unfold held_by. intros H. apply andb_true_iff in H as [H _].
  apply Nat.ltb_lt in H. exact H.
Qed.

Lemma rlocks_log ev w : rlocks (log ev w) = rlocks w.
Proof. reflexivity. Qed.

Lemma rlocks_set_eq l lk w : rlocks (set_rlock l lk w) !!! l = lk.
Proof. unfold set_rlock. simpl. apply lookup_total_insert_eq. Qed.

Lemma rlocks_set_ne l l' lk w :
  l' <> l -> rlocks (set_rlock l lk w) !!! l' = rlocks w !!! l'.
Proof. intros H. unfold set_rlock. simpl. apply lookup_total_insert_ne. auto. Qed.

(** [__enter__] when the handle is open and the lock, if it is wanted, can
    be taken at once. *)
Lemma enter_effect t wait s l :
  lock (self s) = RLockAt l ->
  sqlite3.is_closed (connection (self s)) = false ->
  (acquires (self s) = true ->
   timeout_ok (lock_timeout (self s)) = true
   /\ available t (rlocks (world s) !!! l) = true) ->
  __enter__ t wait s
  = ({| self := set_was_in_transaction
                  (sqlite3.txn_open (connection (self s))) (self s);
        world :=
          if acquires (self s) then
            log (EvAcquire (RLockAt l) t (lock_timeout (self s)) true)
              (set_rlock l
                 {| rlock_owner := t;
                    rlock_count := S (rlock_count (rlocks (world s) !!! l)) |}
                 (world s))
          else world s |},
     Return tt).
Proof.
  intros Hl Hopen. unfold acquires. unfold_M.
  unfold sqlite3.in_transaction. rewrite Hopen.
  destruct (negb _ || negb _).
  - intros H. destruct (H eq_refl) as [Hto Hav].
    unfold lock_acquire. rewrite Hl.
    rewrite RLock_acquire_available by assumption. simpl.
    rewrite Hopen. reflexivity.
  - intros _. simpl. rewrite Hopen. destruct s; reflexivity.
Qed.

(** [__exit__] when the calling thread holds the lock it is to release. *)
Lemma exit_effect t s l :
  lock (self s) = RLockAt l ->
  (releases (self s) = true -> held_by t (rlocks (world s) !!! l) = true) ->
  __exit__ t s
  = ({| self := self s;
        world :=
          if releases (self s) then
            log (EvRelease (RLockAt l) t)
              (set_rlock l (fst (RLock_release t (rlocks (world s) !!! l)))
                 (world s))
          else world s |},
     Return tt).
Proof.
  intros Hl Hheld.
  assert (Hrel : releases (self s) = true ->
            lock_release t s
            = ({| self := self s;
                  world := log (EvRelease (RLockAt l) t)
                             (set_rlock l
                                (fst (RLock_release t (rlocks (world s) !!! l)))
                                (world s)) |}, Return true)).
  { intros Hr. unfold lock_release. rewrite Hl.
    destruct (RLock_release_held_state t _ (Hheld Hr)) as (H1 & _).
    destruct (RLock_release t (rlocks (world s) !!! l)) as [lk r].
    simpl in *. subst r. reflexivity. }
  revert Hrel. unfold releases, exit_in_transaction. unfold_M.
  unfold sqlite3.in_transaction.
  destruct (sqlite3.is_closed (connection (self s))); simpl;
    destruct (lock_transactions (self s)); simpl;
    try destruct (was_in_transaction (self s)); simpl;
    try destruct (sqlite3.txn_open (connection (self s))); simpl;
    intros Hrel; try rewrite (Hrel eq_refl); try reflexivity;
    destruct s; reflexivity.
Qed.

(** [__exit__] when it is to release a lock the calling thread does not
    hold. *)
Lemma exit_not_held t s l :
  lock (self s) = RLockAt l ->
  releases (self s) = true ->
  held_by t (rlocks (world s) !!! l) = false ->
  __exit__ t s
  = ({| self := self s;
        world := log (EvRelease (RLockAt l) t)
                   (set_rlock l (rlocks (world s) !!! l) (world s)) |},
     Raise (of_std {| std_class := RuntimeError;
                      std_msg := "cannot release un-acquired lock" |})).
Proof.
  intros Hl Hrel Hheld.
  assert (Hr : lock_release t s
               = ({| self := self s;
                     world := log (EvRelease (RLockAt l) t)
                                (set_rlock l (rlocks (world s) !!! l) (world s)) |},
                  Raise (of_std {| std_class := RuntimeError;
                                   std_msg := "cannot release un-acquired lock" |}))).
  { unfold lock_release. rewrite Hl.
    rewrite RLock_release_not_held by assumption. reflexivity. }
  revert Hrel. unfold releases, exit_in_transaction. unfold_M.
  unfold sqlite3.in_transaction.
  destruct (sqlite3.is_closed (connection (self s))); simpl;
    destruct (lock_transactions (self s)); simpl;
    try destruct (was_in_transaction (self s)); simpl;
    try destruct (sqlite3.txn_open (connection (self s))); simpl;
    intros Hrel; try discriminate Hrel; rewrite Hr; reflexivity.
Qed.

(** What a delegated call does when the calling thread can take the lock at
    once and the engine call comes back: the engine call sits between the
    acquisition and the release, each made or skipped as the transaction
    state says. *)
Lemma call_method_effect m eng t wait s l hc r :
  lock (self s) = RLockAt l ->
  sqlite3.is_closed (connection (self s)) = false ->
  (acquires (self s) = true ->
   timeout_ok (lock_timeout (self s)) = true
   /\ available t (rlocks (world s) !!! l) = true) ->
  eng (connection (self s), cursor (self s)) = (hc, r) ->
  r <> Block ->
  let c2 := after_call hc (self s) in
  (acquires (self s) = false -> releases c2 = true ->
   held_by t (rlocks (world s) !!! l) = true) ->
  exists s3,
    call_method m eng t wait s = (s3, delegated m c2 r)
    /\ self s3 = c2
    /\ CONNECTION_LOCKS (world s3) = CONNECTION_LOCKS (world s)
    /\ trace (world s3)
       = (trace (world s)
          ++ (if acquires (self s)
              then [EvAcquire (RLockAt l) t (lock_timeout (self s)) true]
              else [])
          ++ [EvEngine m]
          ++ (if releases c2 then [EvRelease (RLockAt l) t] else []))%list
    /\ (lock_level l s3 + Nat.b2n (releases c2)
        = lock_level l s + Nat.b2n (acquires (self s)))%nat
    /\ (acquires (self s) || releases c2 = true ->
        available t (rlocks (world s3) !!! l) = true)
    /\ (acquires (self s) = false -> releases c2 = false ->
        rlocks (world s3) = rlocks (world s))
    /\ (forall l', l' <> l -> rlocks (world s3) !!! l' = rlocks (world s) !!! l').
Proof.
  intros Hl Hopen Hacq Heng Hr c2 Hrelok.
  pose proof (enter_effect t wait s l Hl Hopen Hacq) as Henter.
  set (s1 := {| self := set_was_in_transaction
                          (sqlite3.txn_open (connection (self s))) (self s);
                world := if acquires (self s) then
                           log (EvAcquire (RLockAt l) t (lock_timeout (self s)) true)
                             (set_rlock l
                                {| rlock_owner := t;
                                   rlock_count :=
                                     S (rlock_count (rlocks (world s) !!! l)) |}
                                (world s))
                         else world s |}) in *.
  set (s2 := {| self := c2; world := log (EvEngine m) (world s1) |}).
  assert (Hbody : engine_call m eng s1
                  = (s2, match r with
                         | Return v => Return v
                         | Raise e => Raise (of_std e)
                         | Block => Block
                         end)).
  { unfold engine_call. simpl. rewrite Heng. reflexivity. }
  assert (Hheld2 : releases (self s2) = true ->
                   held_by t (rlocks (world s2) !!! l) = true).
  { simpl. intros Hrel. destruct (acquires (self s)) eqn:Ha.
    - rewrite rlocks_log, rlocks_set_eq. apply held_after_acquire.
    - apply Hrelok; auto. }
  pose proof (exit_effect t s2 l Hl Hheld2) as Hexit.
  set (s3 := {| self := self s2;
                world := if releases (self s2) then
                           log (EvRelease (RLockAt l) t)
                             (set_rlock l
                                (fst (RLock_release t (rlocks (world s2) !!! l)))
                                (world s2))
                         else world s2 |}) in *.
  exists s3. split.
  { unfold call_method, chain, with_self, delegated; destruct m; unfold_M;
      rewrite Henter, Hbody, Hexit; destruct r; try reflexivity;
      exfalso; apply Hr; reflexivity. }
  split; [reflexivity|].
  unfold lock_level. subst s3 s2 s1. cbn [self world] in *.
  destruct (releases c2) eqn:Hrel; destruct (acquires (self s)) eqn:Ha;
    cbn [Nat.b2n orb]; rewrite ?rlocks_log, ?rlocks_set_eq in *.
  - specialize (Hheld2 eq_refl).
    destruct (RLock_release_held_state t _ Hheld2) as (_ & Hc & Hav).
    cbn [rlock_count] in Hc.
    repeat split; auto; try lia; try discriminate.
    + simpl. rewrite <- !app_assoc. reflexivity.
    + intros l' Hne.
      repeat (rewrite rlocks_log || rewrite rlocks_set_ne by assumption).
      reflexivity.
  - specialize (Hheld2 eq_refl).
    destruct (RLock_release_held_state t _ Hheld2) as (_ & Hc & Hav).
    pose proof (held_positive _ _ Hheld2) as Hpos.
    repeat split; auto; try lia; try discriminate.
    + simpl. rewrite <- !app_assoc. reflexivity.
    + intros l' Hne.
      repeat (rewrite rlocks_log || rewrite rlocks_set_ne by assumption).
      reflexivity.
  - repeat split; auto; try (cbn [rlock_count]; lia); try discriminate.
    + simpl. rewrite <- !app_assoc. reflexivity.
    + intros _. apply held_available, held_after_acquire.
    + intros l' Hne.
      repeat (rewrite rlocks_log || rewrite rlocks_set_ne by assumption).
      reflexivity.
  - repeat split; auto; try lia; try discriminate.
Qed.







(** X4: with [lock_transactions] on, a delegated call made inside a
    transaction that is still open afterwards does not touch the lock at
    all, whoever holds it and whatever the timeout is: the engine call is
    the only thing that happens. *)
Theorem call_inside_transaction_skips_lock
    (m : method) (eng : sqlite3.call) (t : tid) (wait : option Q)
    (s : State) (l : loc) (hc : sqlite3.Connection * sqlite3.Cursor)
    (r : outcome stdexn sqlite3.result) :
  lock (self s) = RLockAt l ->
  lock_transactions (self s) = true ->
  sqlite3.is_closed (connection (self s)) = false ->
  sqlite3.txn_open (connection (self s)) = true ->
  eng (connection (self s), cursor (self s)) = (hc, r) ->
  r <> Block ->
  sqlite3.is_closed (fst hc) = false ->
  sqlite3.txn_open (fst hc) = true ->
  exists s',
    call_method m eng t wait s = (s', delegated m (after_call hc (self s)) r)
    /\ self s' = after_call hc (self s)
    /\ trace (world s') = (trace (world s) ++ [EvEngine m])%list
    /\ rlocks (world s') = rlocks (world s).
Proof.
  intros Hl Hlt Hopen Htx Heng Hr Hopen' Htx'.
  assert (Ha : acquires (self s) = false).
  { unfold acquires. rewrite Htx, Hlt. reflexivity. }
  assert (Hrel : releases (after_call hc (self s)) = false).
  { unfold releases, exit_in_transaction. simpl.
    rewrite Hlt, Hopen', Htx'. reflexivity. }
  destruct (call_method_effect m eng t wait s l hc r Hl Hopen)
    as (s' & Hcall & Hself & _ & Htr & _ & _ & Hsame & _); auto.
  { rewrite Ha. discriminate. }
  { rewrite Hrel. discriminate. }
  rewrite Ha, Hrel in *.
  exists s'. repeat split; auto.
Qed.

(** A [fetchall] inside the transaction of [session_in_transaction], from
    a thread that does not hold the lock. *)
Lemma call_inside_transaction_skips_lock_witness :
  exists s',
    call_method fetchall sql_select 2%nat None session_in_transaction
    = (s', Return (RetValue (sqlite3.RRows [[1%Z]; [2%Z]])))
    /\ rlocks (world s') = rlocks (world session_in_transaction).
Proof.
  destruct (call_inside_transaction_skips_lock fetchall sql_select 2%nat None
              session_in_transaction 0%nat
              (connection (self session_in_transaction),
               cursor (self session_in_transaction))
              (Return (sqlite3.RRows [[1%Z]; [2%Z]])))
    as (s' & Hcall & _ & _ & Hsame);
    try reflexivity; try discriminate.
  exists s'. split; [exact Hcall|exact Hsame].
Defined.

(** X5: with [lock_transactions] on, the delegated call that ends the
    transaction (a commit or a rollback) made by the thread that holds the
    lock does not take the lock again and releases it once after the
    engine call. *)
Theorem call_ending_transaction_releases_lock
    (m : method) (eng : sqlite3.call) (t : tid) (wait : option Q)
    (s : State) (l : loc) (hc : sqlite3.Connection * sqlite3.Cursor)
    (r : outcome stdexn sqlite3.result) :
  lock (self s) = RLockAt l ->
  lock_transactions (self s) = true ->
  sqlite3.is_closed (connection (self s)) = false ->
  sqlite3.txn_open (connection (self s)) = true ->
  held_by t (rlocks (world s) !!! l) = true ->
  eng (connection (self s), cursor (self s)) = (hc, r) ->
  r <> Block ->
  sqlite3.is_closed (fst hc) = true \/ sqlite3.txn_open (fst hc) = false ->
  exists s',
    call_method m eng t wait s = (s', delegated m (after_call hc (self s)) r)
    /\ self s' = after_call hc (self s)
    /\ trace (world s')
       = (trace (world s) ++ [EvEngine m; EvRelease (RLockAt l) t])%list
    /\ S (lock_level l s') = lock_level l s
    /\ available t (rlocks (world s') !!! l) = true.
Proof.
  intros Hl Hlt Hopen Htx Hheld Heng Hr Hafter.
  assert (Ha : acquires (self s) = false).
  { unfold acquires. rewrite Htx, Hlt. reflexivity. }
  assert (Hrel : releases (after_call hc (self s)) = true).
  { unfold releases, exit_in_transaction. simpl.
    destruct Hafter as [-> | ->]; simpl;
      rewrite ?andb_false_r; apply orb_true_r. }
  destruct (call_method_effect m eng t wait s l hc r Hl Hopen)
    as (s' & Hcall & Hself & _ & Htr & Hlev & Havail & _); auto.
  { rewrite Ha. discriminate. }
  rewrite Ha, Hrel in *. cbn [Nat.b2n orb] in *.
  exists s'. repeat split; auto. lia.
Qed.

(** The commit of the transaction of [session_in_transaction] by thread 1. *)
Lemma call_ending_transaction_releases_lock_witness :
  exists s',
    call_method commit sql_commit 1%nat None session_in_transaction
    = (s', Return RetNone)
    /\ lock_level 0%nat s' = 0%nat.
Proof.
  destruct (call_ending_transaction_releases_lock commit sql_commit 1%nat None
              session_in_transaction 0%nat
              (sql_commit (connection (self session_in_transaction),
                           cursor (self session_in_transaction))).1
              (Return sqlite3.RNone))
    as (s' & Hcall & _ & _ & Hlev & _);
    try reflexivity; try discriminate.
  - right. reflexivity.
  - exists s'. split; [exact Hcall|].
    change (lock_level 0%nat session_in_transaction) with 1%nat in Hlev.
    injection Hlev as Hlev. exact Hlev.
Defined.

(** ** Closed sessions, and releases by a thread that is not the holder *)






(** X6: with [lock_transactions] on, a delegated call that ends the
    transaction from a thread that does not hold the lock makes the engine
    call and then fails in [__exit__]: the call raises the RuntimeError of
    [RLock.release] whatever the engine call ended with, the handle is as
    the engine left it and the lock is unchanged. *)
Theorem release_by_other_thread_raises
    (m : method) (eng : sqlite3.call) (t : tid) (wait : option Q)
    (s : State) (l : loc) (hc : sqlite3.Connection * sqlite3.Cursor)
    (r : outcome stdexn sqlite3.result) :
  lock (self s) = RLockAt l ->
  lock_transactions (self s) = true ->
  sqlite3.is_closed (connection (self s)) = false ->
  sqlite3.txn_open (connection (self s)) = true ->
  held_by t (rlocks (world s) !!! l) = false ->
  eng (connection (self s), cursor (self s)) = (hc, r) ->
  r <> Block ->
  sqlite3.is_closed (fst hc) = true \/ sqlite3.txn_open (fst hc) = false ->
  exists s',
    call_method m eng t wait s = (s', Raise not_acquired)
    /\ self s' = after_call hc (self s)
    /\ trace (world s')
       = (trace (world s) ++ [EvEngine m; EvRelease (RLockAt l) t])%list
    /\ CONNECTION_LOCKS (world s') = CONNECTION_LOCKS (world s)
    /\ forall l', rlocks (world s') !!! l' = rlocks (world s) !!! l'.
Proof.
  intros Hl Hlt Hopen Htx Hheld Heng Hr Hafter.
  assert (Ha : acquires (self s) = false).
  { unfold acquires. rewrite Htx, Hlt. reflexivity. }
  assert (Hrel : releases (after_call hc (self s)) = true).
  { unfold releases, exit_in_transaction. simpl.
    destruct Hafter as [-> | ->]; simpl;
      rewrite ?andb_false_r; apply orb_true_r. }
  pose proof (enter_effect t wait s l Hl Hopen) as Henter.
  rewrite Ha in Henter. specialize (Henter ltac:(discriminate)).
  set (s1 := {| self := set_was_in_transaction
                          (sqlite3.txn_open (connection (self s))) (self s);
                world := world s |}) in *.
  set (s2 := {| self := after_call hc (self s);
                world := log (EvEngine m) (world s) |}).
  assert (Hbody : engine_call m eng s1
                  = (s2, match r with
                         | Return v => Return v
                         | Raise e => Raise (of_std e)
                         | Block => Block
                         end)).
  { unfold engine_call. simpl. rewrite Heng. reflexivity. }
  pose proof (exit_not_held t s2 l Hl Hrel Hheld) as Hexit.
  eexists. split.
  { unfold call_method, chain, with_self; destruct m; unfold_M;
      rewrite Henter, Hbody, Hexit; destruct r; try reflexivity;
      exfalso; apply Hr; reflexivity. }
  cbn [self world]. repeat split.
  - simpl. rewrite <- app_assoc. reflexivity.
  - intros l'. rewrite rlocks_log.
    destruct (decide (l' = l)) as [->|Hne].
    + rewrite rlocks_set_eq. reflexivity.
    + rewrite rlocks_set_ne by assumption. reflexivity.
Qed.

(** The commit of the transaction of [session_in_transaction] by thread 2:
    the transaction is committed and the call raises. *)
Lemma release_by_other_thread_raises_witness :
  exists s',
    call_method commit sql_commit 2%nat None session_in_transaction
    = (s', Raise not_acquired)
    /\ sqlite3.txn_open (connection (self s')) = false
    /\ rlocks (world s') !!! 0%nat
       = rlocks (world session_in_transaction) !!! 0%nat.
Proof.
  destruct (release_by_other_thread_raises commit sql_commit 2%nat None
              session_in_transaction 0%nat
              (sql_commit (connection (self session_in_transaction),
                           cursor (self session_in_transaction))).1
              (Return sqlite3.RNone))
    as (s' & Hcall & Hself & _ & _ & Hsame);
    try reflexivity; try discriminate.
  - right. reflexivity.
  - exists s'. split; [exact Hcall|]. rewrite Hself.
    split; [reflexivity|apply Hsame].
Defined.





(** ** Nested blocks, whole transactions, contention *)











(** ** Keys of files *)

Section Keys.
Import posixpath.

Lemma isabs_String p : isabs p = true <-> exists p', p = String "/" p'.
Proof.
  split.
  - apply isabs_cons.
  - intros [p' ->]. unfold isabs.
    rewrite startswith_cons, startswith_nil. reflexivity.
Qed.

Lemma normpath_isabs p : isabs p = true -> isabs (normpath p) = true.
Proof.
  intros H. apply isabs_String in H as [p' ->]. unfold normpath.
  change (String.eqb (String "/" p') "") with false. cbv iota.
  assert (H1 : pystr.startswith (String "/" p') "/" = true).
  { rewrite startswith_cons, startswith_nil. reflexivity. }
  rewrite H1.
  destruct (pystr.startswith (String "/" p') "//"
            && negb (pystr.startswith (String "/" p') "///"));
    apply isabs_String; eexists; reflexivity.
Qed.

Lemma abspath_isabs E p : isabs (getcwd E) = true -> isabs (abspath E p) = true.
Proof.
  intros Hcwd. unfold abspath. apply normpath_isabs.
  destruct (isabs p) eqn:Hp; [exact Hp|]. simpl.
  unfold join_step. unfold isabs in Hp. rewrite Hp.
  apply isabs_String in Hcwd as [c ->].
  destruct (_ || _); apply isabs_String; eexists; rewrite append_cons; reflexivity.
Qed.

Lemma normalize_path_isabs E p q :
  isabs (getcwd E) = true -> p <> memory ->
  normalize_path E p = Some q -> isabs q = true.
Proof.
  intros Hcwd Hp. unfold normalize_path.
  apply String.eqb_neq in Hp. rewrite Hp.
  unfold realpath.
  destruct (_joinrealpath E recursion_limit "" p ∅) as [[[path ok] seen]|];
    [|discriminate].
  intros [= <-]. unfold normcase. apply normpath_isabs, abspath_isabs, Hcwd.
Qed.

Lemma normalize_path_memory_iff E p q :
  isabs (getcwd E) = true ->
  normalize_path E p = Some q -> (q = memory <-> p = memory).
Proof.
  intros Hcwd Hq. split.
  - intros ->. destruct (String.eqb_spec p memory) as [Hp|Hp]; [exact Hp|].
    pose proof (normalize_path_isabs E p memory Hcwd Hp Hq) as H.
    discriminate H.
  - intros ->. unfold normalize_path in Hq. simpl in Hq. congruence.
Qed.

Lemma join_cwd_split cw p :
  Forall plain cw -> isabs p = false ->
  isabs (join (render true cw) [p]) = true
  /\ fold_left (normpath_step 1) (pystr.split (join (render true cw) [p])) []
     = fold_left (normpath_step 1) (pystr.split p) cw.
Proof.
  intros Hcw Hp. unfold join. cbn [fold_left]. unfold join_step.
  unfold isabs in Hp. rewrite Hp.
  pose proof (plain_all_name_ok cw Hcw) as Hcw'.
  destruct cw as [|x cw0] eqn:Hcw0.
  - change (render true []) with "/". simpl.
    rewrite append_cons, append_nil_l. split.
    + apply isabs_String. eauto.
    + reflexivity.
  - rewrite <- Hcw0 in *. assert (Hne : cw <> []) by (subst; discriminate).
    rewrite render_endswith by assumption.
    destruct (String.eqb_spec (render true cw) "") as [He|_].
    { exfalso. eapply render_nonempty; eauto. }
    cbn [orb]. split.
    + unfold render. rewrite !append_cons. apply isabs_String. eauto.
    + rewrite split_app_sep, fold_left_app.
      rewrite fold_split_render by assumption. reflexivity.
Qed.

End Keys.

(** X12: the key of a file path is an absolute path and never the
    marker [:memory:], on any filesystem whose working directory is given
    as an absolute path; so [normalize_path] returns the marker for the
    marker alone, and a file that happens to be called [:memory:] written
    in any other way gets a key of its own. *)
Theorem file_key_is_absolute_never_marker
    (E : posixpath.Env) (p q : string) :
  posixpath.isabs (posixpath.getcwd E) = true ->
  normalize_path E p = Some q ->
  (q = memory <-> p = memory)
  /\ (p <> memory -> posixpath.isabs q = true).
Proof.
  intros Hcwd Hq. split.
  - eapply normalize_path_memory_iff; eauto.
  - intros Hp. eapply normalize_path_isabs; eauto.
Qed.

(** The file [:memory:] of the working directory, written [./:memory:]. *)
Lemma file_key_is_absolute_never_marker_witness :
  ("/home/u/:memory:" = memory <-> "./:memory:" = memory)
  /\ posixpath.isabs "/home/u/:memory:" = true.
Proof.
  destruct (file_key_is_absolute_never_marker plain_fs "./:memory:"
              "/home/u/:memory:" eq_refl) as [H1 H2].
  - vm_compute. reflexivity.
  - split; [exact H1|]. apply H2. discriminate.
Defined.

(** X13: [Connection.__init__] gives a session the [FakeLock] exactly
    when the path it was given is the marker [:memory:] itself; every other
    path, once connected, gets a lock from [CONNECTION_LOCKS], registered
    under the normalised path, which is also the path the session keeps. *)
Theorem only_the_marker_gets_FakeLock
    (E : posixpath.Env) (connect : sqlite3.connect_fn) (p : string)
    (lt : bool) (timeout : value) (w w' : World) (c : Connection) :
  posixpath.isabs (posixpath.getcwd E) = true ->
  Connection__init__ E connect p lt timeout w = (w', Return c) ->
  normalize_path E p = Some (path c)
  /\ (lock c = FakeLock <-> p = memory)
  /\ (p <> memory ->
      exists l, lock c = RLockAt l
                /\ CONNECTION_LOCKS w' !! path c = Some l).
Proof.
  intros Hcwd Hinit.
  assert (Hk : normalize_path E p = Some (path c)).
  { revert Hinit. unfold Connection__init__.
    destruct (normalize_path E p) as [k|]; [|discriminate].
    destruct (connect k) as [h|e|]; try discriminate.
    destruct (String.eqb k memory); [intros [= <- <-]; reflexivity|].
    simpl. destruct (CONNECTION_LOCKS w !! k); intros [= <- <-]; reflexivity. }
  pose proof (normalize_path_memory_iff E p (path c) Hcwd Hk) as Hiff.
  split; [exact Hk|].
  destruct (init_registry E connect p lt timeout w w' c Hinit)
    as [(Hm & Hf & _) | (Hm & l & Hreg & Hlk & _)].
  - split; [split; intros _; [apply Hiff, Hm|exact Hf]|].
    intros Hp. exfalso. apply Hp, Hiff, Hm.
  - split; [split|].
    + rewrite Hlk. discriminate.
    + intros Hp. exfalso. apply Hm, Hiff, Hp.
    + intros _. eauto.
Qed.

(** The session opened on [db]. *)
Lemma only_the_marker_gets_FakeLock_witness :
  normalize_path plain_fs "db" = Some (path (self one_session))
  /\ (lock (self one_session) = FakeLock <-> "db" = memory).
Proof.
  destruct (only_the_marker_gets_FakeLock plain_fs connect_ok "db" true
              (PyInt (-1)) World_initial (world one_session)
              (self one_session) eq_refl) as (H1 & H2 & _).
  - vm_compute. reflexivity.
  - split; [exact H1|exact H2].
Defined.

(** X14: on a filesystem without symbolic links a relative path is
    taken from the working directory: it has the key of the path written
    out from the working directory, while the key of an absolute path is
    the same in every working directory. *)
Theorem key_depends_on_cwd_for_relative_paths_only
    (E : posixpath.Env) (cw : list string) (p : string) :
  no_symlinks E ->
  canonical_cwd E cw ->
  p <> memory ->
  (posixpath.isabs p = false ->
   normalize_path E (posixpath.join (posixpath.getcwd E) [p])
   = normalize_path E p)
  /\ (posixpath.isabs p = true ->
      forall E' cw', no_symlinks E' -> canonical_cwd E' cw' ->
                     normalize_path E' p = normalize_path E p).
Proof.
  intros HE Hcwd Hp. split.
  - intros Hrel. destruct Hcwd as [Hget Hcw].
    destruct (join_cwd_split cw p Hcw Hrel) as [Habs Hfold].
    rewrite Hget.
    rewrite !(normalize_path_nolinks E cw); try assumption; try (split; assumption).
    + unfold canon. rewrite Habs, Hrel, Hfold. reflexivity.
    + intros Hm. rewrite Hm in Habs. discriminate Habs.
  - intros Habs E' cw' HE' Hcwd'.
    rewrite (normalize_path_nolinks E cw), (normalize_path_nolinks E' cw')
      by assumption.
    unfold canon. rewrite Habs. reflexivity.
Qed.

(** [../x/db] from the working directory [/home/u]. *)
Lemma key_depends_on_cwd_for_relative_paths_only_witness :
  normalize_path plain_fs (posixpath.join "/home/u" ["../x/db"])
  = normalize_path plain_fs "../x/db".
Proof.
  refine (proj1 (key_depends_on_cwd_for_relative_paths_only plain_fs
                   ["home"; "u"] "../x/db" _ _ _) eq_refl).
  - intros p. reflexivity.
  - split; [reflexivity|]. repeat constructor; discriminate.
  - discriminate.
Defined.

(** ** The registry of a running process *)

Lemma keeps_ret {A} (a : A) : keeps_locks (ret a).
Proof. intros s l H. exact H. Qed.

Lemma keeps_raise {A} e : keeps_locks (@raise A e).
Proof. intros s l H. exact H. Qed.

Lemma keeps_get {A} (f : Connection -> A) : keeps_locks (get f).
Proof. intros s l H. exact H. Qed.

Lemma keeps_modify f : keeps_locks (modify_self f).
Proof. intros s l H. exact H. Qed.

Lemma keeps_in_transaction : keeps_locks in_transaction.
Proof.
  intros s l H. unfold in_transaction.
  destruct (sqlite3.in_transaction _); exact H.
Qed.

Lemma keeps_bind {A B} (m : M A) (k : A -> M B) :
  keeps_locks m -> (forall a, keeps_locks (k a)) -> keeps_locks (bind m k).
Proof.
  intros Hm Hk s l H. unfold bind. specialize (Hm s l H).
  destruct (m s) as [s1 [a| |]]; simpl in *; auto.
  apply Hk. exact Hm.
Qed.

Lemma keeps_try {A} (m : M A) cls h :
  keeps_locks m -> keeps_locks h -> keeps_locks (try_except m cls h).
Proof.
  intros Hm Hh s l H. unfold try_except. specialize (Hm s l H).
  destruct (m s) as [s1 [a|e|]]; simpl in *; auto.
  destruct (issubclass _ _); simpl; auto.
Qed.

Lemma keeps_set_rlock l lk w l' :
  is_Some (rlocks w !! l') -> is_Some (rlocks (set_rlock l lk w) !! l').
Proof.
  intros H. unfold set_rlock. simpl. apply lookup_insert_is_Some.
  destruct (decide (l = l')); auto.
Qed.

Lemma keeps_acquire t wait timeout : keeps_locks (lock_acquire t wait timeout).
Proof.
  intros s l H. unfold lock_acquire.
  destruct (lock (self s)) as [|l0]; simpl; [exact H|].
  destruct (RLock_acquire _ _ _ _) as [lk r]. simpl.
  apply keeps_set_rlock. exact H.
Qed.

Lemma keeps_release t : keeps_locks (lock_release t).
Proof.
  intros s l H. unfold lock_release.
  destruct (lock (self s)) as [|l0]; simpl; [exact H|].
  destruct (RLock_release _ _) as [lk r]. simpl.
  apply keeps_set_rlock. exact H.
Qed.

Ltac keeps :=
  repeat first
    [ apply keeps_bind; [|intros ?]
    | apply keeps_try
    | apply keeps_ret | apply keeps_raise | apply keeps_get
    | apply keeps_modify | apply keeps_in_transaction
    | apply keeps_acquire | apply keeps_release
    | match goal with |- keeps_locks (if ?b then _ else _) => destruct b end ].

Lemma keeps_enter t wait : keeps_locks (__enter__ t wait).
Proof. unfold __enter__, mbind, M_bind, mret, M_ret. keeps. Qed.

Lemma keeps_exit t : keeps_locks (__exit__ t).
Proof. unfold __exit__, mbind, M_bind, mret, M_ret. keeps. Qed.

Lemma keeps_close : keeps_locks close.
Proof. unfold close, mbind, M_bind, mret, M_ret. keeps. Qed.

Lemma keeps_engine m eng : keeps_locks (engine_call m eng).
Proof.
  intros s l H. unfold engine_call.
  destruct (eng _) as [hc r]. exact H.
Qed.

Lemma keeps_with_self {A} t wait (body : M A) :
  keeps_locks body -> keeps_locks (with_self t wait body).
Proof.
  intros Hb s l H. unfold with_self.
  pose proof (keeps_enter t wait s l H) as H1.
  destruct (__enter__ t wait s) as [s1 [u|e|]]; simpl in *; auto.
  pose proof (Hb s1 l H1) as H2.
  destruct (body s1) as [s2 r2]; simpl in *.
  pose proof (keeps_exit t s2 l H2) as H3.
  destruct r2; auto; destruct (__exit__ t s2) as [s3 [u3|e3|]]; simpl in *; auto.
Qed.

Lemma keeps_call m eng t wait : keeps_locks (call_method m eng t wait).
Proof.
  unfold call_method, chain, mbind, M_bind, mret, M_ret.
  destruct m;
    (apply keeps_bind; [apply keeps_with_self, keeps_engine|intros ?; keeps]).
Qed.

(** What [Connection.__init__] does to the world when it returns. *)
Lemma init_world E connect p lt timeout w w' c :
  Connection__init__ E connect p lt timeout w = (w', Return c) ->
  (path c = memory /\ lock c = FakeLock /\ w' = w)
  \/ (path c <> memory
      /\ exists l,
           lock c = RLockAt l
           /\ ((CONNECTION_LOCKS w !! path c = Some l
                /\ CONNECTION_LOCKS w' = CONNECTION_LOCKS w
                /\ rlocks w' = rlocks w)
               \/ (CONNECTION_LOCKS w !! path c = None
                   /\ rlocks w !! l = None
                   /\ CONNECTION_LOCKS w' = <[path c := l]> (CONNECTION_LOCKS w)
                   /\ rlocks w' = <[l := RLock_new]> (rlocks w)))).
Proof.
  unfold Connection__init__.
  destruct (normalize_path E p) as [k|]; [|discriminate].
  destruct (connect k) as [h|e|]; try discriminate.
  destruct (String.eqb k memory) eqn:Hk.
  - intros [= <- <-]. left. simpl. apply String.eqb_eq in Hk. auto.
  - apply String.eqb_neq in Hk. simpl.
    destruct (CONNECTION_LOCKS w !! k) as [l|] eqn:Hreg.
    + intros [= <- <-]. right. simpl. split; [assumption|].
      exists l. split; [reflexivity|]. left. auto.
    + intros [= <- <-]. right. simpl. split; [assumption|].
      eexists. split; [reflexivity|]. right.
      repeat split; auto.
      apply not_elem_of_dom. apply is_fresh.
Qed.

Lemma on_session_wf {A} i (m : M A) S :
  (forall s, registry_untouched s (m s)
             /\ path (self (fst (m s))) = path (self s)) ->
  keeps_locks m ->
  registry_wf S -> registry_wf (on_session i m S).
Proof.
  intros Hm Hk [Hreg Hmem]. unfold on_session.
  destruct (sessions S !! i) as [c|] eqn:Hi; [|split; assumption].
  destruct (Hm {| self := c; world := sys_world S |}) as ((M1 & _ & M3) & M4).
  pose proof (Hk {| self := c; world := sys_world S |}) as M5.
  destruct (m {| self := c; world := sys_world S |}) as [s r].
  cbn [fst self world] in *. split; cbn [sys_world sessions].
  - intros k l Hkl. rewrite M1 in *.
    destruct (Hreg k l Hkl) as (H1 & H2 & (j & c' & Hj & Hp) & H4).
    repeat split; auto.
    destruct (decide (i = j)) as [->|Hne].
    + exists j, (self s). split; [|congruence].
      apply list_lookup_insert_eq. eapply lookup_lt_Some; eauto.
    + exists j, c'. split; [|assumption].
      rewrite list_lookup_insert_ne by assumption. exact Hj.
  - intros j c' Hj Hp.
    destruct (decide (i = j)) as [->|Hne].
    + rewrite list_lookup_insert_eq in Hj by (eapply lookup_lt_Some; eauto).
      injection Hj as <-. rewrite M3. apply (Hmem j c Hi). congruence.
    + rewrite list_lookup_insert_ne in Hj by assumption. eauto.
Qed.

Lemma step_wf E S a : registry_wf S -> registry_wf (step E S a).
Proof.
  intros Hwf. destruct a as [connect p lt timeout|i|i t wait|i t|i m eng t wait];
    simpl.
  - destruct (Connection__init__ E connect p lt timeout (sys_world S))
      as [w r] eqn:Hinit.
    destruct r as [c|e|].
    + destruct Hwf as [Hreg Hmem].
      apply init_world in Hinit.
      destruct Hinit as [(Hm & Hf & ->)|(Hne & l & Hlk & Hchg)].
      * split; cbn [sys_world sessions].
        { intros k l Hkl.
          destruct (Hreg k l Hkl) as (H1 & H2 & (j & c' & Hj & Hp) & H4).
          repeat split; auto. exists j, c'. split; [|assumption].
          apply lookup_app_l_Some. exact Hj. }
        { intros j c' Hj Hp.
          apply lookup_app_Some in Hj as [Hj|[_ Hj]]; [eauto|].
          destruct (j - length (sessions S)) as [|n]; [|destruct n; discriminate].
          injection Hj as <-. exact Hf. }
      * split; cbn [sys_world sessions].
        2:{ intros j c' Hj Hp.
            apply lookup_app_Some in Hj as [Hj|[_ Hj]]; [eauto|].
            destruct (j - length (sessions S)) as [|n]; [|destruct n; discriminate].
            injection Hj as <-. contradiction. }
        destruct Hchg as [(Hold & -> & ->)|(Hnone & Hfresh & -> & ->)].
        { intros k l0 Hkl.
          destruct (Hreg k l0 Hkl) as (H1 & H2 & (j & c' & Hj & Hp) & H4).
          repeat split; auto. exists j, c'. split; [|assumption].
          apply lookup_app_l_Some. exact Hj. }
        intros k l0 Hkl.
        destruct (decide (k = path c)) as [->|Hk].
        { rewrite lookup_insert_eq in Hkl. injection Hkl as <-.
          split; [assumption|]. split; [rewrite lookup_insert_eq; eauto|].
          split.
          - exists (length (sessions S)), c. split; [|reflexivity].
            rewrite lookup_app_r by lia. rewrite Nat.sub_diag. reflexivity.
          - intros k' Hk'.
            destruct (decide (k' = path c)) as [->|Hk'']; [reflexivity|].
            rewrite lookup_insert_ne in Hk' by auto.
            destruct (Hreg k' l Hk') as (_ & [lk Hlk'] & _). congruence. }
        rewrite lookup_insert_ne in Hkl by auto.
        destruct (Hreg k l0 Hkl) as (H1 & H2 & (j & c' & Hj & Hp) & H4).
        assert (Hll : l0 <> l).
        { intros ->. destruct H2 as [lk Hlk']. congruence. }
        split; [assumption|]. split; [rewrite lookup_insert_ne by auto; exact H2|].
        split.
        { exists j, c'. split; [|assumption]. apply lookup_app_l_Some. exact Hj. }
        intros k' Hk'.
        destruct (decide (k' = path c)) as [->|Hk''].
        { rewrite lookup_insert_eq in Hk'. congruence. }
        rewrite lookup_insert_ne in Hk' by auto. auto.
    + apply init_failure in Hinit; [|discriminate]. subst w.
      destruct S; exact Hwf.
    + apply init_failure in Hinit; [|discriminate]. subst w.
      destruct S; exact Hwf.
  - apply on_session_wf; [|apply keeps_close|assumption]. intros s.
    destruct (close_frame s) as (H1 & H2 & _). auto.
  - apply on_session_wf; [|apply keeps_enter|assumption]. intros s.
    destruct (enter_frame t wait s) as (H1 & H2 & _). auto.
  - apply on_session_wf; [|apply keeps_exit|assumption]. intros s.
    destruct (exit_frame t s) as (H1 & H2 & _). auto.
  - apply on_session_wf; [|apply keeps_call|assumption]. intros s.
    destruct (call_method_frame m eng t wait s) as (H1 & H2 & _). auto.
Qed.

Lemma run_wf E acts : registry_wf (run E acts).
Proof.
  unfold run.
  assert (H : forall S, registry_wf S -> registry_wf (fold_left (step E) acts S)).
  { induction acts as [|a acts IH]; intros S HS; simpl; [exact HS|].
    apply IH. apply step_wf. exact HS. }
  apply H. split.
  - intros k l Hkl. simpl in Hkl. rewrite lookup_empty in Hkl. discriminate.
  - intros i c Hi. discriminate.
Qed.

(** X15: throughout a run of the process, every key of
    [CONNECTION_LOCKS] is the path of a session that was connected --
    never the marker [:memory:], never a path whose connection failed -- and
    that session refers to the lock registered under the key. *)
Theorem registry_keys_are_session_paths
    (E : posixpath.Env) (acts : list action) (k : string) (l : loc) :
  CONNECTION_LOCKS (sys_world (run E acts)) !! k = Some l ->
  k <> memory
  /\ exists i c, sessions (run E acts) !! i = Some c
                 /\ path c = k /\ lock c = RLockAt l.
Proof.
  intros Hkl. destruct (run_wf E acts) as [Hreg _].
  destruct (Hreg k l Hkl) as (H1 & _ & (i & c & Hi & Hp) & _).
  split; [exact H1|]. exists i, c. repeat split; auto.
  destruct (run_inv E acts i c Hi) as (l' & Hreg' & Hlock); [congruence|].
  rewrite Hp in Hreg'. congruence.
Qed.

(** The key [/a/c] of the run [three_sessions]. *)
Lemma registry_keys_are_session_paths_witness :
  "/a/c" <> memory
  /\ exists i c, sessions (run plain_fs three_sessions) !! i = Some c
                 /\ path c = "/a/c" /\ lock c = RLockAt 1%nat.
Proof.
  apply (registry_keys_are_session_paths plain_fs three_sessions "/a/c" 1%nat).
  vm_compute. reflexivity.
Defined.

(** X16: throughout a run of the process, two sessions refer to the
    same lock exactly when they have the same key: sessions on different
    files never wait for each other. *)
Theorem sessions_share_lock_iff_same_key
    (E : posixpath.Env) (acts : list action) (i j : nat)
    (ci cj : Connection) (l : loc) :
  sessions (run E acts) !! i = Some ci ->
  sessions (run E acts) !! j = Some cj ->
  lock ci = RLockAt l ->
  (lock cj = RLockAt l <-> path cj = path ci).
Proof.
  intros Hi Hj Hl. destruct (run_wf E acts) as [Hreg Hmem].
  assert (Hpi : path ci <> memory).
  { intros Hm. rewrite (Hmem i ci Hi Hm) in Hl. discriminate. }
  destruct (run_inv E acts i ci Hi Hpi) as (li & Hri & Hli).
  assert (li = l) by congruence. subst li.
  split.
  - intros Hlj.
    assert (Hpj : path cj <> memory).
    { intros Hm. rewrite (Hmem j cj Hj Hm) in Hlj. discriminate. }
    destruct (run_inv E acts j cj Hj Hpj) as (lj & Hrj & Hlj').
    assert (lj = l) by congruence. subst lj.
    destruct (Hreg (path ci) l Hri) as (_ & _ & _ & Hinj).
    apply Hinj. exact Hrj.
  - intros Hp.
    destruct (run_inv E acts j cj Hj) as (lj & Hrj & Hlj'); [congruence|].
    rewrite Hp in Hrj. congruence.
Qed.

(** The sessions of [three_sessions]: the third shares the lock of the
    first, the second does not. *)
Lemma sessions_share_lock_iff_same_key_witness :
  (lock (session_at three_sessions 2) = RLockAt 0%nat
   <-> path (session_at three_sessions 2) = path (session_at three_sessions 0))
  /\ (lock (session_at three_sessions 1) = RLockAt 0%nat
      <-> path (session_at three_sessions 1) = path (session_at three_sessions 0)).
Proof.
  split.
  - apply (sessions_share_lock_iff_same_key plain_fs three_sessions 0%nat 2%nat);
      vm_compute; reflexivity.
  - apply (sessions_share_lock_iff_same_key plain_fs three_sessions 0%nat 1%nat);
      vm_compute; reflexivity.
Defined.

(** ** Timeouts the lock rejects, and the flag [was_in_transaction] *)




(** X18: [__exit__] reads [was_in_transaction] but its decision does
    not depend on it: with the flag set either way it releases or keeps the
    lock alike, ends alike and leaves the same world; it never changes the
    session. *)
Theorem exit_ignores_was_in_transaction (t : tid) (s : State) (b : bool) :
  let s_b := {| self := set_was_in_transaction b (self s); world := world s |} in
  world (fst (__exit__ t s_b)) = world (fst (__exit__ t s))
  /\ snd (__exit__ t s_b) = snd (__exit__ t s)
  /\ self (fst (__exit__ t s_b)) = set_was_in_transaction b (self s)
  /\ self (fst (__exit__ t s)) = self s.
Proof.
  intros s_b. subst s_b. unfold_M. unfold lock_release. cbn [self world].
  change (lock (set_was_in_transaction b (self s))) with (lock (self s)).
  change (connection (set_was_in_transaction b (self s)))
    with (connection (self s)).
  change (lock_transactions (set_was_in_transaction b (self s)))
    with (lock_transactions (self s)).
  change (was_in_transaction (set_was_in_transaction b (self s))) with b.
  destruct (sqlite3.in_transaction (connection (self s))) as [x|e|] eqn:Hin;
    cbn.
  3:{ unfold sqlite3.in_transaction in Hin.
      destruct (sqlite3.is_closed _); discriminate. }
  - destruct (lock_transactions (self s)); cbn;
      destruct b, (was_in_transaction (self s)), x;
      cbn; destruct (lock (self s)) as [|l0]; cbn;
      try destruct (RLock_release t (rlocks (world s) !!! l0)) as [lk [u|e0|]];
      cbn; auto.
  - unfold sqlite3.in_transaction in Hin.
    destruct (sqlite3.is_closed _); inversion Hin; subst. cbn.
    destruct (lock_transactions (self s)); cbn;
      destruct b, (was_in_transaction (self s));
      cbn; destruct (lock (self s)) as [|l0]; cbn;
      try destruct (RLock_release t (rlocks (world s) !!! l0)) as [lk [u|e0|]];
      cbn; auto.
Qed.

(** ** What a run never undoes *)

Lemma on_session_stable {A} i (m : M A) S :
  (forall s, registry_untouched s (m s)
             /\ path (self (fst (m s))) = path (self s)) ->
  CONNECTION_LOCKS (sys_world (on_session i m S)) = CONNECTION_LOCKS (sys_world S)
  /\ forall j c, sessions S !! j = Some c ->
       exists c', sessions (on_session i m S) !! j = Some c'
                  /\ path c' = path c /\ lock c' = lock c.
Proof.
  intros Hm. unfold on_session.
  destruct (sessions S !! i) as [c|] eqn:Hi; [|eauto].
  destruct (Hm {| self := c; world := sys_world S |}) as ((M1 & _ & M3) & M4).
  destruct (m {| self := c; world := sys_world S |}) as [s r].
  cbn [fst self world sys_world sessions] in *. split; [exact M1|].
  intros j c' Hj. destruct (decide (i = j)) as [->|Hne].
  - exists (self s). rewrite list_lookup_insert_eq by (eapply lookup_lt_Some; eauto).
    assert (c' = c) by congruence. subst c'. auto.
  - exists c'. rewrite list_lookup_insert_ne by assumption. auto.
Qed.

Lemma step_stable E S a :
  (forall k l, CONNECTION_LOCKS (sys_world S) !! k = Some l ->
               CONNECTION_LOCKS (sys_world (step E S a)) !! k = Some l)
  /\ (forall j c, sessions S !! j = Some c ->
        exists c', sessions (step E S a) !! j = Some c'
                   /\ path c' = path c /\ lock c' = lock c).
Proof.
  destruct a as [connect p lt timeout|i|i t wait|i t|i m eng t wait]; simpl.
  - destruct (Connection__init__ E connect p lt timeout (sys_world S))
      as [w r] eqn:Hinit.
    destruct r as [c|e|].
    + apply init_world in Hinit. cbn [sys_world sessions]. split.
      * intros k l Hkl.
        destruct Hinit as [(_ & _ & ->)|(_ & l0 & _ & Hchg)]; [exact Hkl|].
        destruct Hchg as [(_ & -> & _)|(Hnone & _ & -> & _)]; [exact Hkl|].
        rewrite lookup_insert_ne; [exact Hkl|]. intros <-. congruence.
      * intros j c' Hj. exists c'. split; [|auto].
        apply lookup_app_l_Some. exact Hj.
    + apply init_failure in Hinit; [|discriminate]. subst w. eauto.
    + apply init_failure in Hinit; [|discriminate]. subst w. eauto.
  - destruct (on_session_stable i close S) as [H1 H2].
    { intros s. destruct (close_frame s) as (F1 & F2 & _). auto. }
    rewrite H1. auto.
  - destruct (on_session_stable i (__enter__ t wait) S) as [H1 H2].
    { intros s. destruct (enter_frame t wait s) as (F1 & F2 & _). auto. }
    rewrite H1. auto.
  - destruct (on_session_stable i (__exit__ t) S) as [H1 H2].
    { intros s. destruct (exit_frame t s) as (F1 & F2 & _). auto. }
    rewrite H1. auto.
  - destruct (on_session_stable i (call_method m eng t wait) S) as [H1 H2].
    { intros s. destruct (call_method_frame m eng t wait s) as (F1 & F2 & _). auto. }
    rewrite H1. auto.
Qed.

Lemma steps_stable E acts : forall S,
  (forall k l, CONNECTION_LOCKS (sys_world S) !! k = Some l ->
               CONNECTION_LOCKS (sys_world (fold_left (step E) acts S)) !! k = Some l)
  /\ (forall j c, sessions S !! j = Some c ->
        exists c', sessions (fold_left (step E) acts S) !! j = Some c'
                   /\ path c' = path c /\ lock c' = lock c).
Proof.
  induction acts as [|a acts IH]; intros S; cbn [fold_left]; [eauto|].
  destruct (step_stable E S a) as [H1 H2].
  destruct (IH (step E S a)) as [H3 H4]. split.
  - auto.
  - intros j c Hj. destruct (H2 j c Hj) as (c1 & Hj1 & Hp1 & Hl1).
    destruct (H4 j c1 Hj1) as (c2 & Hj2 & Hp2 & Hl2).
    exists c2. repeat split; congruence.
Qed.

(** X19: nothing a process does later undoes what a connection set
    up: a registry entry maps its key to the same lock for the rest of the
    run, and a session keeps its place, its path and its lock whatever
    is called on it or on other sessions. *)
Theorem registry_and_sessions_are_permanent
    (E : posixpath.Env) (acts later : list action) :
  (forall k l,
      CONNECTION_LOCKS (sys_world (run E acts)) !! k = Some l ->
      CONNECTION_LOCKS (sys_world (run E (acts ++ later)%list)) !! k = Some l)
  /\ (forall i c,
         sessions (run E acts) !! i = Some c ->
         exists c', sessions (run E (acts ++ later)%list) !! i = Some c'
                    /\ path c' = path c /\ lock c' = lock c).
Proof.
  unfold run. rewrite fold_left_app. apply steps_stable.
Qed.

(** The entry of [/a/b] made by [three_sessions] is there after two of the
    sessions have been closed. *)
Lemma registry_and_sessions_are_permanent_witness :
  CONNECTION_LOCKS
    (sys_world (run plain_fs (three_sessions ++ [Close 0%nat; Close 2%nat])%list))
    !! "/a/b" = Some 0%nat.
Proof.
  apply (proj1 (registry_and_sessions_are_permanent plain_fs three_sessions
                  [Close 0%nat; Close 2%nat])).
  vm_compute. reflexivity.
Defined.
